(** * The particle scene of hapi: shape targets, the per-frame step and
      the palette assignment of [src/components/ParticleScene.tsx].

    Numbers.  A JavaScript number is modelled by an exact real.  The
    operations that send finite arguments to NaN or to an infinity
    (a division by zero, [Math.sqrt] and [Math.acos] outside their
    domain, [Math.pow] of a negative base) stop the run with
    [NonFinite]; a property read on [undefined] stops it with
    [TypeError].  A run that ends in [Done] therefore never produced
    a non-finite number.  Rounding to binary64 and overflow of its
    range are not part of the model.

    Randomness.  [Math.random()] reads the next element of a sequence
    of draws carried in the state, so that a statement can quantify
    over every possible sequence. *)

From Stdlib Require Import Reals Lra Lia ZArith Psatz.
From Stdlib Require PrimFloat.
From Stdlib Require Import Ascii.
From stdpp Require Import base list strings.

Open Scope R_scope.

(** ** The run monad *)

Inductive Failure : Type :=
| NonFinite   (* an operation left the finite numbers *)
| TypeError.  (* a property of undefined was read *)

Record Rng : Type := mkRng { draws : nat -> R; cursor : nat }.

(** Every draw of [Math.random()] lies in [0, 1). *)
Definition RngOk (g : Rng) : Prop := forall n : nat, 0 <= draws g n < 1.

Inductive Outcome (A : Type) : Type :=
| Done (a : A) (g : Rng)
| Abort (e : Failure).
Arguments Done {A} a g.
Arguments Abort {A} e.

Definition Js (A : Type) : Type := Rng -> Outcome A.

Definition ret {A : Type} (a : A) : Js A := fun g => Done a g.

Definition bind {A B : Type} (m : Js A) (k : A -> Js B) : Js B :=
  fun g => match m g with
           | Done a g' => k a g'
           | Abort e => Abort e
           end.

Definition throw {A : Type} (e : Failure) : Js A := fun _ => Abort e.

Notation "'do' x <- m ;; k" := (bind m (fun x => k))
  (at level 10, x name, m at level 99, k at level 200).

(** [a // b] is the JavaScript quotient [a / b]. *)
Definition divide (a b : R) : Js R :=
  if Req_dec_T b 0 then throw NonFinite else ret (a / b).
Infix "//" := divide (at level 40, left associativity).

(** The comparison [a < b] as the boolean the code branches on. *)
Definition Rltb (a b : R) : bool := if Rlt_dec a b then true else false.

Module Math.

Definition random : Js R :=
  fun g => Done (draws g (cursor g)) (mkRng (draws g) (S (cursor g))).

Definition sqrt (a : R) : Js R :=
  if Rlt_dec a 0 then throw NonFinite else ret (R_sqrt.sqrt a).

Definition acos (a : R) : Js R :=
  if Rle_dec (-1) a
  then if Rle_dec a 1 then ret (Ratan.acos a) else throw NonFinite
  else throw NonFinite.

(** [Math.pow(a, b)] for an exponent [b > 0] that is not an integer,
    the only kind the scene uses (0.3). *)
Definition pow (a b : R) : Js R :=
  if Rlt_dec a 0 then throw NonFinite
  else if Req_dec_T a 0 then ret 0
  else ret (Rpower a b).

Definition floor (a : R) : Z := Zfloor a.

End Math.

(** ** The part of three.js the scene uses *)

Module THREE.

Record Vector3 : Type := mkVector3 { x : R; y : R; z : R }.

(** [Vector3.setFromSphericalCoords(radius, phi, theta)] *)
Definition setFromSphericalCoords (radius phi theta : R) : Vector3 :=
  let sinPhiRadius := sin phi * radius in
  mkVector3 (sinPhiRadius * sin theta)
            (cos phi * radius)
            (sinPhiRadius * cos theta).

Definition multiplyScalar (p : Vector3) (s : R) : Vector3 :=
  mkVector3 (x p * s) (y p * s) (z p * s).

(** [Vector3.lengthSq()] and [Vector3.length()] *)
Definition lengthSq (p : Vector3) : R := x p * x p + y p * y p + z p * z p.
Definition length (p : Vector3) : R := R_sqrt.sqrt (lengthSq p).

Record Color : Type := mkColor { r : R; g : R; b : R }.

(** [color.toArray(array, offset)] *)
Definition toArray (c : Color) (array : list R) (offset : nat) : list R :=
  <[(offset + 2)%nat := b c]>
    (<[(offset + 1)%nat := g c]> (<[offset := r c]> array)).

End THREE.

(** ** Types of [src/types.ts] *)

Record VisualParams : Type := mkVisualParams {
  chaos : R;
  speed : R;
  size : R;
  colorPalette : list string;
  shape : string
}.

Record SongData : Type := mkSongData {
  title : string;
  artist : string;
  description : string;
  tempo : R;
  key : string;
  scale : string;
  visualParams : VisualParams
}.

Module HandPosition.
Record t : Type := mk { x : R; y : R; isDetected : bool }.
End HandPosition.

(** ** [simpleNoise] *)

Definition simpleNoise (x y z : R) : R := sin x * cos y * sin z.

(** ** [getTargetPosition] *)

Definition getTargetPosition (i count : nat) (shape : string)
  : Js THREE.Vector3 :=
  do ratio <- INR i // INR count ;;
  do q <- (2 * INR i) // INR count ;;
  do phi <- Math.acos (-1 + q) ;;
  do s <- Math.sqrt (INR count * PI) ;;
  let theta := s * phi in
  if String.eqb shape "cat" then
    if Rltb ratio 0.35 then
      (* Head *)
      let p := THREE.setFromSphericalCoords 3 (phi * 2) theta in
      ret (THREE.mkVector3 (THREE.x p) (THREE.y p + 3.5) (THREE.z p))
    else if Rltb ratio 0.85 then
      (* Body *)
      let p := THREE.setFromSphericalCoords 4.5 phi theta in
      ret (THREE.mkVector3 (THREE.x p) (THREE.y p - 2.5) (THREE.z p))
    else if Rltb ratio 0.92 then
      (* Left Ear *)
      do r1 <- Math.random ;;
      do r2 <- Math.random ;;
      do r3 <- Math.random ;;
      ret (THREE.mkVector3 (-2 + r1) (6 + r2 * 2) r3)
    else
      (* Right Ear *)
      do r1 <- Math.random ;;
      do r2 <- Math.random ;;
      do r3 <- Math.random ;;
      ret (THREE.mkVector3 (2 + r1) (6 + r2 * 2) r3)
  else if String.eqb shape "flower" then
    let petalCount := 6 in
    let flowerR := 8 * Rabs (cos (petalCount * 0.5 * theta)) in
    do r1 <- Math.random ;;
    let r := r1 * flowerR + 2 in
    let z := sin r * 2 in
    do r2 <- Math.random ;;
    ret (THREE.mkVector3 (r * cos theta) (r * sin theta) (z + (r2 - 0.5) * 2))
  else if String.eqb shape "fish" then
    let fishL := (ratio - 0.5) * 15 in
    let width := cos (fishL * 0.2) * 4 in
    let height := cos (fishL * 0.2) * 5 in
    if Rltb (Rabs fishL) 7 then
      (* Body *)
      do r1 <- Math.random ;;
      let angle := r1 * PI * 2 in
      do rad <- Math.random ;;
      ret (THREE.mkVector3 fishL (cos angle * height * rad) (sin angle * width * rad))
    else
      (* Tail *)
      do r1 <- Math.random ;;
      do r2 <- Math.random ;;
      ret (THREE.mkVector3 (fishL - 2) ((r1 - 0.5) * 8) ((r2 - 0.5) * 2))
  else if String.eqb shape "star" then
    do r1 <- Math.random ;;
    do pw <- Math.pow r1 0.3 ;;
    let starR := pw * 12 in
    let p := THREE.setFromSphericalCoords starR phi theta in
    if Nat.eqb (i mod 20) 0 then ret (THREE.multiplyScalar p 1.5) else ret p
  else
    (* 'sphere' and default *)
    let sphereR := 10 in
    ret (THREE.setFromSphericalCoords sphereR phi theta).

(** ** The particle store *)

Module P.
Record Particle : Type := mk {
  t : R;
  x : R; y : R; z : R;
  baseX : R; baseY : R; baseZ : R;
  vx : R; vy : R; vz : R
}.
End P.
Abbreviation Particle := P.Particle.

(** The initial store ([useMemo], source lines 107-123): [count]
    particles, seven draws each, in the order the object literal lists
    them.  The component fixes [count] at 4000; here it is a parameter
    of the store, of the palette effect and of the frame step. *)
Fixpoint newParticles (n : nat) : Js (list Particle) :=
  match n with
  | O => ret []
  | S n' =>
      do r0 <- Math.random ;;
      do r1 <- Math.random ;;
      do r2 <- Math.random ;;
      do r3 <- Math.random ;;
      do r4 <- Math.random ;;
      do r5 <- Math.random ;;
      do r6 <- Math.random ;;
      let particle :=
        P.mk (r0 * 100)
             ((r1 - 0.5) * 50) ((r2 - 0.5) * 50) ((r3 - 0.5) * 50)
             ((r4 - 0.5) * 20) ((r5 - 0.5) * 20) ((r6 - 0.5) * 20)
             0 0 0 in
      do temp <- newParticles n' ;;
      ret (particle :: temp)
  end.

Definition particles (count : nat) : Js (list Particle) := newParticles count.

(** ** The palette effect (source lines 128-136) *)

(** [array[k]] for an integer-valued number [k]; [None] is [undefined]. *)
Definition index {A : Type} (array : list A) (k : Z) : option A :=
  if (k <? 0)%Z then None else array !! Z.to_nat k.

Section Palette.

(** [new THREE.Color(c)]: the colour three.js parses from the string. *)
Variable newColor : string -> THREE.Color.

(** The loop [for (let i = 0; i < count; i++)], with [n] iterations
    left to run from [i]. *)
Fixpoint colorLoop (colors : list THREE.Color) (n i : nat)
         (colorArray : list R) : Js (list R) :=
  match n with
  | O => ret colorArray
  | S n' =>
      do u <- Math.random ;;
      match index colors (Math.floor (u * INR (length colors))) with
      | None => throw TypeError
      | Some color =>
          colorLoop colors n' (S i) (THREE.toArray color colorArray (i * 3))
      end
  end.

Definition updateColors (songData : option SongData) (meshCurrent : bool)
           (count : nat) (colorArray : list R) : Js (list R) :=
  match songData with
  | None => ret colorArray
  | Some data =>
      if negb meshCurrent then ret colorArray
      else
        let colors := map newColor (colorPalette (visualParams data)) in
        colorLoop colors count 0 colorArray
  end.

End Palette.

(** ** The per-frame step ([useFrame], source lines 138-263)

    The instance matrices, the scale and the lights the step writes
    for the renderer are never read back by it; the model keeps the
    particle store, which is all the step reads. *)

(** [freqData.slice(from, to).reduce((a, b) => a + b, 0)] on the bytes
    of the analyser. *)
Definition sumSlice (freqData : list nat) (from to : nat) : R :=
  INR (fold_left Nat.add (take (to - from) (drop from freqData)) 0%nat).

(** Hand interaction (source lines 187-222), run when the hand is
    detected: the force is added to the particle's velocity. *)
Definition handInteraction (shape : string) (handX handY : R)
           (particle : Particle) : Js Particle :=
  let '(P.mk t x y z baseX baseY baseZ vx vy vz) := particle in
  let dx := x - handX in
  let dy := y - handY in
  let dz := z - 0 in
  do dist <- Math.sqrt (dx * dx + dy * dy + dz * dz) ;;
  let radius := 25 in
  if Rltb dist radius then
    do q <- dist // radius ;;
    let influence := 1 - q in
    let power := influence * influence in
    if String.eqb shape "cat" && Rltb dist 8 then
      let vx := vx - dx * 0.05 * power in
      let vy := vy - dy * 0.05 * power in
      let vz := vz - dz * 0.05 * power in
      do r1 <- Math.random ;;
      let vx := vx + (r1 - 0.5) * 0.5 * power in
      ret (P.mk t x y z baseX baseY baseZ vx vy vz)
    else if String.eqb shape "flower" then
      let vx := vx + dx * 0.1 * power in
      let vy := vy + dy * 0.1 * power in
      ret (P.mk t x y z baseX baseY baseZ vx vy vz)
    else
      let swirlSpeed := 0.8 * power in
      let vx := vx + (- dy * swirlSpeed * 0.1) in
      let vy := vy + (dx * swirlSpeed * 0.1) in
      let suction := 0.5 * power in
      let vx := vx - (dx * suction * 0.1) in
      let vy := vy - (dy * suction * 0.1) in
      let vz := vz - (dz * suction * 0.1) in
      ret (P.mk t x y z baseX baseY baseZ vx vy vz)
  else ret particle.

(** The body of [particles.forEach((particle, i) => ...)]. *)
Definition updateParticle (count : nat) (visual : VisualParams) (bass : R)
           (handX handY : R) (isHandActive : bool)
           (i : nat) (particle : Particle) : Js Particle :=
  let speed := speed visual in
  let chaos := chaos visual in
  let shape := shape visual in
  do target <- getTargetPosition i count shape ;;
  let '(P.mk t x y z baseX baseY baseZ vx vy vz) := particle in
  (* Morph *)
  let baseX := baseX + (THREE.x target - baseX) * 0.03 in
  let baseY := baseY + (THREE.y target - baseY) * 0.03 in
  let baseZ := baseZ + (THREE.z target - baseZ) * 0.03 in
  (* Ambient noise *)
  let t := t + speed * (0.005 + bass * 0.05) in
  let noiseScale := chaos in
  let noiseScale := if String.eqb shape "cat" then noiseScale * 0.5 else noiseScale in
  let noiseScale := if String.eqb shape "fish" then noiseScale * 1.5 else noiseScale in
  let noiseX := simpleNoise t (baseZ * 0.1) (baseX * 0.1) * noiseScale * 5 in
  let noiseY := simpleNoise (baseY * 0.1) t (baseZ * 0.1) * noiseScale * 5 in
  let noiseZ := simpleNoise (baseZ * 0.1) (baseX * 0.1) t * noiseScale * 5 in
  let currentTargetX := baseX + noiseX in
  let currentTargetY := baseY + noiseY in
  let currentTargetZ := baseZ + noiseZ in
  (* Hand interaction *)
  do touched <-
    (if isHandActive
     then handInteraction shape handX handY
            (P.mk t x y z baseX baseY baseZ vx vy vz)
     else ret (P.mk t x y z baseX baseY baseZ vx vy vz)) ;;
  (* Physics integration *)
  let vx := P.vx touched * 0.92 in
  let vy := P.vy touched * 0.92 in
  let vz := P.vz touched * 0.92 in
  let springStrength := if isHandActive then 0.01 else 0.05 in
  let vx := vx + (currentTargetX - x) * springStrength in
  let vy := vy + (currentTargetY - y) * springStrength in
  let vz := vz + (currentTargetZ - z) * springStrength in
  let x := x + vx in
  let y := y + vy in
  let z := z + vz in
  ret (P.mk t x y z baseX baseY baseZ vx vy vz).

(** [array.forEach(f)] on the store, from index [i] on; the callback
    updates each particle in place. *)
Fixpoint forEach (f : nat -> Particle -> Js Particle) (i : nat)
         (array : list Particle) : Js (list Particle) :=
  match array with
  | [] => ret []
  | particle :: rest =>
      do particle' <- f i particle ;;
      do rest' <- forEach f (S i) rest ;;
      ret (particle' :: rest')
  end.

Definition useFrame (count : nat) (meshCurrent : bool)
           (songData : option SongData) (handPosition : HandPosition.t)
           (freqData : list nat) (particles : list Particle)
  : Js (list Particle) :=
  match songData with
  | Some data =>
      if negb meshCurrent then ret particles
      else
        do b10 <- sumSlice freqData 0 10 // 10 ;;
        do bass <- b10 // 255 ;;
        do t50 <- sumSlice freqData 100 150 // 50 ;;
        do treble <- t50 // 255 ;;
        let handX := HandPosition.x handPosition * 30 in
        let handY := HandPosition.y handPosition * 20 in
        let isHandActive := HandPosition.isDetected handPosition in
        forEach (updateParticle count (visualParams data) bass
                                handX handY isHandActive) 0 particles
  | None => ret particles
  end.

(** [n] successive frames on a mounted mesh, each with the pointer and
    the analyser bytes [inputs k] sampled for frame [k]. *)
Fixpoint frames (count : nat) (songData : option SongData)
         (inputs : nat -> HandPosition.t * list nat)
         (n : nat) (particles : list Particle) : Js (list Particle) :=
  match n with
  | O => ret particles
  | S n' =>
      do previous <- frames count songData inputs n' particles ;;
      useFrame count true songData (inputs n').1 (inputs n').2 previous
  end.

(** ** The face classifier ([classifyEmotion],
       [src/components/FaceEmotionDetector.tsx], lines 83-98) *)

Module Blendshape.
Record t : Type := mk { categoryName : string; score : R }.
End Blendshape.

(** [shapes.find(s => s.categoryName === name)?.score || 0] *)
Definition getScore (shapes : list Blendshape.t) (name : string) : R :=
  match find (fun s => String.eqb (Blendshape.categoryName s) name) shapes with
  | Some s => Blendshape.score s
  | None => 0
  end.

(** The averages divide by the constants 2 and 3. *)
Definition classifyEmotion (shapes : list Blendshape.t) : string :=
  let smile :=
    (getScore shapes "mouthSmileLeft" + getScore shapes "mouthSmileRight") / 2 in
  let frown :=
    (getScore shapes "mouthFrownLeft" + getScore shapes "mouthFrownRight") / 2 in
  let browDown :=
    (getScore shapes "browDownLeft" + getScore shapes "browDownRight") / 2 in
  let browUp :=
    (getScore shapes "browInnerUp" + getScore shapes "browOuterUpLeft"
     + getScore shapes "browOuterUpRight") / 3 in
  let jawOpen := getScore shapes "jawOpen" in
  if Rltb 0.5 smile then "Happy"%string
  else if Rltb 0.5 browDown then "Angry"%string
  else if Rltb 0.4 frown || (Rltb 0.4 browUp && Rltb 0.2 frown) then "Sad"%string
  else if Rltb 0.3 jawOpen || (Rltb 0.3 browUp && Rltb smile 0.2)
       then "Anxious"%string
  else "Neutral"%string.

(** ** The hand pointer ([predictWebcam],
       [src/components/HandController.tsx], lines 59-72) *)

Module Landmark.
Record t : Type := mk { x : R; y : R; z : R }.
End Landmark.

(** What [predictWebcam] hands to [onHandUpdate] for the landmarks the
    detector returned ([None] when [results.landmarks] is missing). *)
Definition handUpdate (landmarks : option (list (list Landmark.t)))
  : Js HandPosition.t :=
  match landmarks with
  | Some (hand :: _) =>
      match hand !! 8%nat with
      | Some indexTip =>
          ret (HandPosition.mk ((1 - Landmark.x indexTip) * 2 - 1)
                               (- (Landmark.y indexTip * 2 - 1))
                               true)
      | None => throw TypeError
      end
  | _ => ret (HandPosition.mk 0 0 false)
  end.

(** ** The audio engine ([src/unnamed/part_001], imported by the scene
       as [services/audioEngine]) *)

Module AudioEngine.

(** [init] sets [analyser.fftSize = 256]; an analyser has half as many
    frequency bins. *)
Definition fftSize : nat := 256.
Definition frequencyBinCount : nat := fftSize / 2.

(** [getFrequencyData]: the bytes of the analyser, or an empty array
    when the engine was never initialised. *)
Definition getFrequencyData (analyser : option (list nat)) : list nat :=
  match analyser with
  | None => []
  | Some byteFrequencyData => byteFrequencyData
  end.

(** [s.includes(sub)] *)
Fixpoint includes (s sub : string) : bool :=
  String.prefix sub s
  || match s with
     | EmptyString => false
     | String _ rest => includes rest sub
     end.

Definition getChord (baseFreq : R) (scale : string) : list R :=
  let root := 1 in
  let third := 1.2599 in
  let fifth := 1.4983 in
  let seventh := 1.8877 in
  let ninth := 2.2449 in
  if includes scale "minor" then
    let third := 1.1892 in
    [baseFreq * root; baseFreq * third; baseFreq * fifth;
     baseFreq * seventh; baseFreq * ninth]
  else if includes scale "diminished" then
    let third := 1.1892 in
    let fifth := 1.4142 in
    [baseFreq * root; baseFreq * third; baseFreq * fifth;
     baseFreq * seventh; baseFreq * ninth]
  else if includes scale "pentatonic" then
    [baseFreq; baseFreq * 1.122; baseFreq * 1.2599; baseFreq * 1.4983;
     baseFreq * 1.6818]
  else
    [baseFreq * root; baseFreq * third; baseFreq * fifth;
     baseFreq * seventh; baseFreq * ninth].

(** [s.replace(c, by)] for a one-character pattern: the first
    occurrence only. *)
Fixpoint replace (c : Ascii.ascii) (by' : string) (s : string) : string :=
  match s with
  | EmptyString => EmptyString
  | String a rest =>
      if Ascii.eqb a c then (by' ++ rest)%string
      else String a (replace c by' rest)
  end.

(** [array.indexOf(s)], [-1] when absent. *)
Fixpoint indexOf (array : list string) (s : string) : Z :=
  match array with
  | [] => -1
  | a :: rest =>
      if String.eqb a s then 0
      else let k := indexOf rest s in
           if (k =? -1)%Z then -1 else (k + 1)%Z
  end.

Definition notes : list string :=
  ["C"; "C#"; "D"; "D#"; "E"; "F"; "F#"; "G"; "G#"; "A"; "A#"; "B"]%string.

Section NoteToFreq.

(** [String.prototype.toUpperCase] *)
Variable toUpperCase : string -> string.

Definition noteToFreq (note : string) : Js R :=
  let index :=
    indexOf notes (replace "B"%char "#" (replace "M"%char "" (toUpperCase note))) in
  let cleanIndex := if (index =? -1)%Z then 0%Z else index in
  do exponent <- IZR cleanIndex // 12 ;;
  do power <- Math.pow 2 exponent ;;
  ret (261.63 * power).

End NoteToFreq.

(** The spacing of the arpeggiator's notes ([startPianoArpeggiator],
    lines 154-156). *)
Definition noteTime (tempo : R) : Js R :=
  do interval <- 60 // tempo ;;
  if Rltb tempo 80 then interval // 2 else ret interval.

End AudioEngine.

(** ** The scale of an instance ([useFrame], source lines 242-244) *)

Definition finalScale (size bass treble t : R) : R :=
  let sFactor := (sin (t * 10) + 1) * 0.5 in
  let audioScale := 1 + (bass * 3) + (treble * sFactor * 2) in
  size * audioScale * 0.2.

(** The scales the frame sets on the instances (source lines 241-246):
    instance [i] gets [finalScale] on its three axes, for the [size] of
    the bundle, the frame's [bass] and [treble] and the phase the
    callback has just left on particle [i].  A frame that returns early
    sets no scale. *)
Definition instanceScales (count : nat) (meshCurrent : bool)
           (songData : option SongData) (handPosition : HandPosition.t)
           (freqData : list nat) (particles : list Particle)
  : Js (list R) :=
  match songData with
  | Some data =>
      if negb meshCurrent then ret []
      else
        do b10 <- sumSlice freqData 0 10 // 10 ;;
        do bass <- b10 // 255 ;;
        do t50 <- sumSlice freqData 100 150 // 50 ;;
        do treble <- t50 // 255 ;;
        let size := size (visualParams data) in
        do particles' <- useFrame count meshCurrent songData handPosition
                                  freqData particles ;;
        ret (map (fun particle => finalScale size bass treble (P.t particle))
                 particles')
  | None => ret []
  end.

(** ** The piano notes of the audio engine ([src/unnamed/part_001],
       lines 115-189)

    A Web Audio oscillator and its gain envelope are kept as the
    numbers the code configures them with. *)

Module Partial.
Record t : Type := mk {
  frequency : R;   (* osc.frequency.value *)
  detune : R;      (* osc.detune.value, 0 unless set *)
  peak : R;        (* the gain reached at the end of the attack *)
  start : R;       (* osc.start *)
  stop : R         (* osc.stop *)
}.
End Partial.

(** [harmonics.forEach((h, i) => ...)] of [playPianoNote], from index
    [i] on. *)
Fixpoint harmonicsLoop (freq time volume : R) (weights : list R) (i : nat)
         (harmonics : list R) : Js (list Partial.t) :=
  match harmonics with
  | [] => ret []
  | h :: rest =>
      do detune <-
        (if (0 <? i)%nat then do r <- Math.random ;; ret (r * 5) else ret 0) ;;
      let attack := 0.01 in
      let decay := 1.0 in
      match weights !! i with
      | None => throw NonFinite
      | Some weight =>
          let partial :=
            Partial.mk (freq * h) detune (volume * weight) time
                       (time + attack + decay + 0.1) in
          do others <- harmonicsLoop freq time volume weights (S i) rest ;;
          ret (partial :: others)
      end
  end.

(** [playPianoNote(freq, time, duration, volume)]; [ready] tells
    whether the context and the master gain exist. *)
Definition playPianoNote (ready : bool) (freq time duration volume : R)
  : Js (list Partial.t) :=
  if negb ready then ret []
  else
    let harmonics := [1; 2; 3] in
    let weights := [1; 0.4; 0.1] in
    harmonicsLoop freq time volume weights 0 harmonics.

(** One turn of the [while] loop of [scheduler]: the note it plays and
    the next note index. *)
Definition scheduleNote (chord : list R) (noteTime nextNoteTime : R)
           (noteIndex : nat) : Js (list Partial.t * nat) :=
  do r1 <- Math.random ;;
  let octaveMult := if Rltb 0.7 r1 then 2 else 1 in
  match chord !! (noteIndex mod length chord)%nat with
  | None => throw NonFinite
  | Some tone =>
      let freq := tone * octaveMult in
      let velocity := if Nat.eqb (noteIndex mod 4) 0 then 0.4 else 0.2 in
      do note <- playPianoNote true freq nextNoteTime noteTime velocity ;;
      do r2 <- Math.random ;;
      if Rltb 0.3 r2 then ret (note, S noteIndex)
      else
        do r3 <- Math.random ;;
        ret (note, Z.to_nat (Math.floor (r3 * INR (length chord))))
  end.

(** One pass of [scheduler] at the context time [currentTime], on the
    [nextNoteTime] and [noteIndex] the closure keeps: the notes played
    and the values left for the next pass, or [None] when the loop has
    not ended within [fuel] turns. *)
Fixpoint scheduler (fuel : nat) (chord : list R) (noteTime currentTime : R)
         (nextNoteTime : R) (noteIndex : nat)
  : Js (option (list (list Partial.t) * R * nat)) :=
  if Rltb nextNoteTime (currentTime + 0.1) then
    match fuel with
    | O => ret None
    | S fuel' =>
        do played <- scheduleNote chord noteTime nextNoteTime noteIndex ;;
        do later <- scheduler fuel' chord noteTime currentTime
                              (nextNoteTime + noteTime) played.2 ;;
        match later with
        | None => ret None
        | Some (notes, next, index) => ret (Some (played.1 :: notes, next, index))
        end
    end
  else ret (Some ([], nextNoteTime, noteIndex)).

(** ** The hand velocity of the fluid variant of the scene
       ([src/unnamed/part_002], lines 156-163) *)

(** The drag velocity of a frame and the new [prevHandPos.current]. *)
Definition handVelocity (isHandActive : bool) (handX handY : R)
           (prevHandPos : option (R * R)) : (R * R) * option (R * R) :=
  let velocity :=
    match prevHandPos with
    | Some (prevX, prevY) =>
        if isHandActive then ((handX - prevX) * 5, (handY - prevY) * 5)
        else (0, 0)
    | None => (0, 0)
    end in
  (velocity, if isHandActive then Some (handX, handY) else None).

(** * Vocabulary of the statements *)

(** What a run returns, without the generator it leaves. *)
Definition result {A : Type} (o : Outcome A) : Failure + A :=
  match o with
  | Done a _ => inr a
  | Abort e => inl e
  end.

(** The generator after [n] more draws, and the [k]-th draw ahead. *)
Definition advance (n : nat) (g : Rng) : Rng :=
  mkRng (draws g) (n + cursor g).

Definition draw (g : Rng) (k : nat) : R := draws g (k + cursor g).

(** The angles every branch of [getTargetPosition] starts from. *)
Definition phiOf (i count : nat) : R := acos (-1 + 2 * INR i / INR count).

Definition thetaOf (i count : nat) : R :=
  sqrt (INR count * PI) * phiOf i count.

(** The four literals whose branch of the switch is not the default. *)
Definition randomShape (shape : string) : Prop :=
  shape = "cat"%string \/ shape = "flower"%string
  \/ shape = "fish"%string \/ shape = "star"%string.

(** The body-axis coordinate, and the two samplers of the fish branch
    (source lines 61, 68-72 and 75-77). *)
Definition fishL (i count : nat) : R := (INR i / INR count - 0.5) * 15.

Definition fishBody (l r1 rad : R) : THREE.Vector3 :=
  THREE.mkVector3 l
    (cos (r1 * PI * 2) * (cos (l * 0.2) * 5) * rad)
    (sin (r1 * PI * 2) * (cos (l * 0.2) * 4) * rad).

Definition fishTail (l r1 r2 : R) : THREE.Vector3 :=
  THREE.mkVector3 (l - 2) ((r1 - 0.5) * 8) ((r2 - 0.5) * 2).

(** Source lines 21 and 61 and the test of line 66 as binary64
    evaluates them, to check that a boundary input is one the rounded
    arithmetic really meets. *)
Module Binary64.
Import PrimFloat.

Definition fishL (i count : float) : float := ((i / count - 0.5) * 15)%float.

Definition isBody (i count : float) : bool := ltb (abs (fishL i count)) 7%float.

Definition boundary : bool :=
  eqb (fishL 29 30) 7%float && negb (isBody 29 30).

End Binary64.

(** [morphsToward T k p0 p]: [p] is what [k] successive runs of the
    callback make of [p0], the inputs of each frame being arbitrary
    except that the target computed for the particle was [T] each
    time. *)
Inductive morphsToward (T : THREE.Vector3) : nat -> Particle -> Particle -> Prop :=
| morph_start (p : Particle) : morphsToward T 0 p p
| morph_frame (k : nat) (p0 p p' : Particle)
              (count : nat) (visual : VisualParams) (bass handX handY : R)
              (isHandActive : bool) (i : nat) (g g1 g' : Rng) :
    morphsToward T k p0 p ->
    getTargetPosition i count (shape visual) g = Done T g1 ->
    updateParticle count visual bass handX handY isHandActive i p g
    = Done p' g' ->
    morphsToward T (S k) p0 p'.

(** The Euclidean distance of the base position from a point. *)
Definition baseDistance (p : Particle) (T : THREE.Vector3) : R :=
  sqrt ((P.baseX p - THREE.x T) * (P.baseX p - THREE.x T)
        + (P.baseY p - THREE.y T) * (P.baseY p - THREE.y T)
        + (P.baseZ p - THREE.z T) * (P.baseZ p - THREE.z T)).

(** The palette entry a draw [u] selects among [n] colours. *)
Definition colorIndex (n : nat) (u : R) : Z := Math.floor (u * INR n).

(** What the loop leaves in the slots of particle [j]: the three
    channels of [c]. *)
Definition painted (array : list R) (j : nat) (c : THREE.Color) : Prop :=
  array !! (j * 3)%nat = Some (THREE.r c)
  /\ array !! (j * 3 + 1)%nat = Some (THREE.g c)
  /\ array !! (j * 3 + 2)%nat = Some (THREE.b c).

(** [wp m g Q]: from the generator [g] the run [m] ends in [Done] and
    its value and final generator satisfy [Q]. *)
Definition wp {A : Type} (m : Js A) (g : Rng) (Q : A -> Rng -> Prop) : Prop :=
  match m g with
  | Done a g' => Q a g'
  | Abort _ => False
  end.

(** [safe m]: the run [m] never throws. *)
Definition safe {A : Type} (m : Js A) : Prop :=
  forall g : Rng, m g <> Abort TypeError.

(** [bass] as the step computes it from the analyser's bytes. *)
Definition bassOf (freqData : list nat) : R := sumSlice freqData 0 10 / 10 / 255.

(** Record updates used to state the comparison. *)
Definition withShape (visual : VisualParams) (s : string) : VisualParams :=
  mkVisualParams (chaos visual) (speed visual) (size visual)
                 (colorPalette visual) s.

Definition withVisual (data : SongData) (visual : VisualParams) : SongData :=
  mkSongData (title data) (artist data) (description data) (tempo data)
             (key data) (scale data) visual.

(** The bundle as section 7 of the spec words it, to be compared with
    what the step does: [chaos], [speed] and [size] clamped to [0,1],
    [0.1,2] and [0.1,2], and an unknown shape replaced by sphere. *)
Definition clamp (lo hi v : R) : R := Rmax lo (Rmin hi v).

Definition isShapeLiteral (s : string) : bool :=
  String.eqb s "sphere" || String.eqb s "cat" || String.eqb s "flower"
  || String.eqb s "fish" || String.eqb s "star".

Definition sanitized (visual : VisualParams) : VisualParams :=
  mkVisualParams (clamp 0 1 (chaos visual))
                 (clamp 0.1 2 (speed visual))
                 (clamp 0.1 2 (size visual))
                 (colorPalette visual)
                 (if isShapeLiteral (shape visual) then shape visual
                  else "sphere"%string).

(** A bundle whose speed, 5, lies outside [0.1, 2]. *)
Definition hastySong : SongData :=
  mkSongData "" "" "" 90 "C" "major"
             (mkVisualParams 0 5 1 ["#ffffff"%string] "sphere").

(** The target of particle [i] on the sphere. *)
Definition sphereTarget (i count : nat) : THREE.Vector3 :=
  THREE.setFromSphericalCoords 10 (phiOf i count) (thetaOf i count).

(** What the callback makes of a particle when [chaos = 0],
    [speed = 0] and the hand is not detected, for the target [T]. *)
Definition calmStep (T : THREE.Vector3) (p : Particle) : Particle :=
  let baseX := P.baseX p + (THREE.x T - P.baseX p) * 0.03 in
  let baseY := P.baseY p + (THREE.y T - P.baseY p) * 0.03 in
  let baseZ := P.baseZ p + (THREE.z T - P.baseZ p) * 0.03 in
  let vx := P.vx p * 0.92 + (baseX - P.x p) * 0.05 in
  let vy := P.vy p * 0.92 + (baseY - P.y p) * 0.05 in
  let vz := P.vz p * 0.92 + (baseZ - P.z p) * 0.05 in
  P.mk (P.t p) (P.x p + vx) (P.y p + vy) (P.z p + vz)
       baseX baseY baseZ vx vy vz.

(** The initial store: positions in [-25, 25], base positions in
    [-10, 10], velocities zero. *)
Definition initial (p : Particle) : Prop :=
  (-25 <= P.x p <= 25 /\ -25 <= P.y p <= 25 /\ -25 <= P.z p <= 25)
  /\ (-10 <= P.baseX p <= 10 /\ -10 <= P.baseY p <= 10
      /\ -10 <= P.baseZ p <= 10)
  /\ (P.vx p = 0 /\ P.vy p = 0 /\ P.vz p = 0).

(** One axis of the idle step in the coordinates
    [e = position - target], [v = velocity], [d = base - target]. *)
Definition axisStep (s : R * R * R) : R * R * R :=
  let '(e, v, d) := s in
  let d' := 0.97 * d in
  let v' := 0.92 * v + 0.05 * (d' - e) in
  (e + v', v', d').

(** The same step on numerators over the common denominator
    [10000 ^ k]. *)
Definition scaledStep (s : Z * Z * Z) : Z * Z * Z :=
  let '(e, v, d) := s in
  (9500 * e + 9200 * v + 485 * d,
   -500 * e + 9200 * v + 485 * d,
   9700 * d)%Z.

(** The linear combination of three integer columns, over [10000 ^ k]. *)
Definition combine (k : nat) (c1 c2 c3 : Z * Z * Z) (s : R * R * R)
  : R * R * R :=
  let '(e, v, d) := s in
  let '(a1, b1, d1) := c1 in
  let '(a2, b2, d2) := c2 in
  let '(a3, b3, d3) := c3 in
  ((IZR a1 * e + IZR a2 * v + IZR a3 * d) / 10000 ^ k,
   (IZR b1 * e + IZR b2 * v + IZR b3 * d) / 10000 ^ k,
   (IZR d1 * e + IZR d2 * v + IZR d3 * d) / 10000 ^ k).

(** [within B s]: the three coordinates of [s] are at most [B] in
    absolute value. *)
Definition within (B : R) (s : R * R * R) : Prop :=
  let '(e, v, d) := s in Rabs e <= B /\ Rabs v <= B /\ Rabs d <= B.

(** [rowsBelow c1 c2 c3 D]: along each row of the matrix of columns
    [c1], [c2], [c3], the absolute values sum to at most [0.11 * D]. *)
Definition rowsBelow (c1 c2 c3 : Z * Z * Z) (D : Z) : bool :=
  let '(a1, b1, d1) := c1 in
  let '(a2, b2, d2) := c2 in
  let '(a3, b3, d3) := c3 in
  (((Z.abs a1 + Z.abs a2 + Z.abs a3) * 100 <=? 11 * D)
   && ((Z.abs b1 + Z.abs b2 + Z.abs b3) * 100 <=? 11 * D)
   && ((Z.abs d1 + Z.abs d2 + Z.abs d3) * 100 <=? 11 * D))%Z.

(** The three axes of a particle, in error coordinates about [T]. *)
Definition axisX (T : THREE.Vector3) (p : Particle) : R * R * R :=
  (P.x p - THREE.x T, P.vx p, P.baseX p - THREE.x T).

Definition axisY (T : THREE.Vector3) (p : Particle) : R * R * R :=
  (P.y p - THREE.y T, P.vy p, P.baseY p - THREE.y T).

Definition axisZ (T : THREE.Vector3) (p : Particle) : R * R * R :=
  (P.z p - THREE.z T, P.vz p, P.baseZ p - THREE.z T).

(** The distance of a particle from the origin. *)
Definition distanceFromOrigin (p : Particle) : R :=
  sqrt (P.x p * P.x p + P.y p * P.y p + P.z p * P.z p).

(** [treble] as the step computes it from the analyser's bytes. *)
Definition trebleOf (freqData : list nat) : R :=
  sumSlice freqData 100 150 / 50 / 255.

(** The distance of a particle from the pointer, as the interaction
    computes it. *)
Definition pointerDistance (handX handY : R) (p : Particle) : R :=
  sqrt ((P.x p - handX) * (P.x p - handX) + (P.y p - handY) * (P.y p - handY)
        + (P.z p - 0) * (P.z p - 0)).

(** The falloff [power = (1 - dist / 25)^2]. *)
Definition falloff (dist : R) : R := (1 - dist / 25) * (1 - dist / 25).

(** The velocity the default vortex leaves (source lines 213-219). *)
Definition swirled (handX handY : R) (p : Particle) : Particle :=
  let dx := P.x p - handX in
  let dy := P.y p - handY in
  let dz := P.z p - 0 in
  let power := falloff (pointerDistance handX handY p) in
  P.mk (P.t p) (P.x p) (P.y p) (P.z p) (P.baseX p) (P.baseY p) (P.baseZ p)
       (P.vx p + - dy * (0.8 * power) * 0.1 - dx * (0.5 * power) * 0.1)
       (P.vy p + dx * (0.8 * power) * 0.1 - dy * (0.5 * power) * 0.1)
       (P.vz p - dz * (0.5 * power) * 0.1).

(** Particle [k] of a fresh store, from the draws it consumes. *)
Definition particleFromDraws (g : Rng) (k : nat) : Particle :=
  P.mk (draw g (7 * k) * 100)
       ((draw g (7 * k + 1) - 0.5) * 50)
       ((draw g (7 * k + 2) - 0.5) * 50)
       ((draw g (7 * k + 3) - 0.5) * 50)
       ((draw g (7 * k + 4) - 0.5) * 20)
       ((draw g (7 * k + 5) - 0.5) * 20)
       ((draw g (7 * k + 6) - 0.5) * 20)
       0 0 0.

(** The callback in three phases, to state what a step leaves.

    [morphed]: the particle after the morph of its base position toward
    [target] and the advance of its phase (source lines 163-170). *)
Definition morphed (visual : VisualParams) (bass : R) (target : THREE.Vector3)
           (p : Particle) : Particle :=
  P.mk (P.t p + speed visual * (0.005 + bass * 0.05))
       (P.x p) (P.y p) (P.z p)
       (P.baseX p + (THREE.x target - P.baseX p) * 0.03)
       (P.baseY p + (THREE.y target - P.baseY p) * 0.03)
       (P.baseZ p + (THREE.z target - P.baseZ p) * 0.03)
       (P.vx p) (P.vy p) (P.vz p).

(** A particle with another velocity. *)
Definition withVelocity (p : Particle) (vx vy vz : R) : Particle :=
  P.mk (P.t p) (P.x p) (P.y p) (P.z p) (P.baseX p) (P.baseY p) (P.baseZ p)
       vx vy vz.

(** The amplitude of the noise: [chaos] as the bundle gives it, halved
    for the cat and raised by half for the fish (source lines 173-175). *)
Definition noiseScaleOf (visual : VisualParams) : R :=
  let noiseScale := chaos visual in
  let noiseScale :=
    if String.eqb (shape visual) "cat" then noiseScale * 0.5 else noiseScale in
  if String.eqb (shape visual) "fish" then noiseScale * 1.5 else noiseScale.

(** [integrated]: friction, the spring toward the noisy target and the
    move, applied to the particle [q] the interaction leaves (source
    lines 177-184 and 225-236). *)
Definition integrated (visual : VisualParams) (isHandActive : bool)
           (q : Particle) : Particle :=
  let noiseX :=
    simpleNoise (P.t q) (P.baseZ q * 0.1) (P.baseX q * 0.1)
    * noiseScaleOf visual * 5 in
  let noiseY :=
    simpleNoise (P.baseY q * 0.1) (P.t q) (P.baseZ q * 0.1)
    * noiseScaleOf visual * 5 in
  let noiseZ :=
    simpleNoise (P.baseZ q * 0.1) (P.baseX q * 0.1) (P.t q)
    * noiseScaleOf visual * 5 in
  let springStrength := if isHandActive then 0.01 else 0.05 in
  let vx := P.vx q * 0.92 + (P.baseX q + noiseX - P.x q) * springStrength in
  let vy := P.vy q * 0.92 + (P.baseY q + noiseY - P.y q) * springStrength in
  let vz := P.vz q * 0.92 + (P.baseZ q + noiseZ - P.z q) * springStrength in
  P.mk (P.t q) (P.x q + vx) (P.y q + vy) (P.z q + vz)
       (P.baseX q) (P.baseY q) (P.baseZ q) vx vy vz.

(** [p'] is what a step with the bundle [visual], taken as it is, makes
    of [p]: for some target, the particle is morphed toward it, touched
    by the interaction when the hand is detected, and integrated. *)
Definition steppedAsGiven (visual : VisualParams) (bass handX handY : R)
           (isHandActive : bool) (p p' : Particle) : Prop :=
  exists (target : THREE.Vector3) (g1 : Rng) (touched : Particle) (g2 : Rng),
    (if isHandActive
     then handInteraction (shape visual) handX handY
                          (morphed visual bass target p)
     else ret (morphed visual bass target p)) g1
    = Done touched g2
    /\ p' = integrated visual isHandActive touched.

(** The ten categories the classifier reads. *)
Definition readCategories : list string :=
  ["mouthSmileLeft"; "mouthSmileRight"; "mouthFrownLeft"; "mouthFrownRight";
   "browDownLeft"; "browDownRight"; "browInnerUp"; "browOuterUpLeft";
   "browOuterUpRight"; "jawOpen"]%string.

Definition isRead (s : Blendshape.t) : bool :=
  existsb (String.eqb (Blendshape.categoryName s)) readCategories.

(** * Properties *)

(** ** Running the partial operations *)

Lemma Done_value {A : Type} (a a' : A) (g g' : Rng) :
  Done a g = Done a' g' -> a = a'.
Proof. intros E. congruence. Qed.

Lemma divide_ok (a b : R) (g : Rng) : b <> 0 -> (a // b) g = Done (a / b) g.
Proof.
  intros Hb. unfold divide. destruct (Req_dec_T b 0) as [E | _]; [contradiction | reflexivity].
Qed.

Lemma sqrt_ok (a : R) (g : Rng) : 0 <= a -> Math.sqrt a g = Done (sqrt a) g.
Proof.
  intros Ha. unfold Math.sqrt. destruct (Rlt_dec a 0) as [L | _]; [lra | reflexivity].
Qed.

Lemma acos_ok (a : R) (g : Rng) :
  -1 <= a <= 1 -> Math.acos a g = Done (acos a) g.
Proof.
  intros [Hl Hu]. unfold Math.acos.
  destruct (Rle_dec (-1) a) as [_ | N]; [| contradiction].
  destruct (Rle_dec a 1) as [_ | N]; [reflexivity | contradiction].
Qed.

Lemma Rltb_true (a b : R) : a < b -> Rltb a b = true.
Proof. intros H. unfold Rltb. destruct (Rlt_dec a b); [reflexivity | contradiction]. Qed.

Lemma Rltb_false (a b : R) : b <= a -> Rltb a b = false.
Proof. intros H. unfold Rltb. destruct (Rlt_dec a b); [lra | reflexivity]. Qed.

Lemma INR_index_bounds (i count : nat) :
  (i < count)%nat -> 0 <= INR i < INR count.
Proof.
  intros H. split; [apply pos_INR | apply lt_INR; exact H].
Qed.

Lemma ratio_bounds (i count : nat) :
  (i < count)%nat -> 0 <= INR i / INR count < 1.
Proof.
  intros H. destruct (INR_index_bounds i count H) as [H0 H1].
  assert (Hc : 0 < INR count) by lra.
  split.
  - apply Rmult_le_pos; [exact H0 | left; apply Rinv_0_lt_compat; exact Hc].
  - apply (Rmult_lt_reg_r (INR count)); [exact Hc |].
    unfold Rdiv. rewrite Rmult_assoc, Rinv_l by lra. lra.
Qed.

Lemma acos_arg_bounds (i count : nat) :
  (i < count)%nat -> -1 <= -1 + 2 * INR i / INR count <= 1.
Proof.
  intros H. pose proof (ratio_bounds i count H) as B.
  replace (2 * INR i / INR count) with (2 * (INR i / INR count))
    by (unfold Rdiv; ring).
  lra.
Qed.

Lemma count_pi_nonneg (count : nat) : 0 <= INR count * PI.
Proof.
  apply Rmult_le_pos; [apply pos_INR | left; exact PI_RGT_0].
Qed.

(** Turns [INR] of a numeral into the real numeral. *)
Ltac inr_const :=
  rewrite ?INR_IZR_INZ;
  repeat match goal with
         | |- context [Z.of_nat ?n] =>
             let z := eval vm_compute in (Z.of_nat n) in
             change (Z.of_nat n) with z
         end.

(** Unfolds [getTargetPosition] at a valid index and runs the four
    operations that come before the switch. *)
Ltac run_prelude H :=
  unfold getTargetPosition, bind;
  rewrite !divide_ok
    by (pose proof (INR_index_bounds _ _ H); lra);
  rewrite acos_ok by (apply acos_arg_bounds; exact H);
  rewrite sqrt_ok by (apply count_pi_nonneg);
  cbv zeta.

(** ** The frame step without a parameter bundle *)

(** C9. While [songData] is null the frame step returns at once: the
    store it leaves is the store it was given, with every particle's
    position, velocity, base position and phase untouched, whatever the
    pointer and the audio bytes are; no draw is consumed either. *)
Theorem useFrame_without_songData :
  forall (count : nat) (meshCurrent : bool) (handPosition : HandPosition.t)
         (freqData : list nat) (particles : list Particle) (g : Rng),
    useFrame count meshCurrent None handPosition freqData particles g
    = Done particles g.
Proof.
  intros. reflexivity.
Qed.

(** ** The sphere branch *)

Lemma default_branch (shape : string) :
  ~ randomShape shape ->
  String.eqb shape "cat" = false /\ String.eqb shape "flower" = false
  /\ String.eqb shape "fish" = false /\ String.eqb shape "star" = false.
Proof.
  intros N. unfold randomShape in N.
  repeat split; apply String.eqb_neq; intros E; apply N; tauto.
Qed.

Lemma sphere_target_at (i count : nat) (shape : string) (g : Rng) :
  (i < count)%nat -> ~ randomShape shape ->
  getTargetPosition i count shape g
  = Done (THREE.setFromSphericalCoords 10 (phiOf i count) (thetaOf i count)) g.
Proof.
  intros Hi N. destruct (default_branch shape N) as (E1 & E2 & E3 & E4).
  unfold thetaOf, phiOf. run_prelude Hi. rewrite E1, E2, E3, E4. reflexivity.
Qed.

(** Whatever the index, the default branch never reads the generator:
    the run depends on [i] and [count] alone. *)
Lemma sphere_target_ignores_rng (i count : nat) (shape : string) (g1 g2 : Rng) :
  ~ randomShape shape ->
  result (getTargetPosition i count shape g1)
  = result (getTargetPosition i count shape g2)
  /\ (forall v g', getTargetPosition i count shape g1 = Done v g' ->
        g' = g1
        /\ v = THREE.setFromSphericalCoords 10 (phiOf i count) (thetaOf i count)).
Proof.
  intros N. destruct (default_branch shape N) as (E1 & E2 & E3 & E4).
  unfold getTargetPosition, bind, divide, Math.acos, Math.sqrt, throw, ret.
  rewrite E1, E2, E3, E4.
  destruct (Req_dec_T (INR count) 0) as [Z | NZ]; [split; [reflexivity | discriminate] |].
  destruct (Rle_dec (-1) (-1 + 2 * INR i / INR count)) as [L | L];
    [| split; [reflexivity | discriminate]].
  destruct (Rle_dec (-1 + 2 * INR i / INR count) 1) as [U | U];
    [| split; [reflexivity | discriminate]].
  destruct (Rlt_dec (INR count * PI) 0) as [S | S];
    [split; [reflexivity | discriminate] |].
  split; [reflexivity |].
  intros v g' E. injection E as <- <-. split; reflexivity.
Qed.

(** C10. For [shape = 'sphere'], and for any string the switch sends
    to its default branch, [getTargetPosition] is deterministic: two
    evaluations with the same [i] and [count] return the same thing
    whatever the random source holds, the source is left where it was
    (no draw is made), and at an index [i < count] the value is the
    point of spherical coordinates radius 10,
    [phi = acos(-1 + 2i/count)], [theta = sqrt(count*pi)*phi]. *)
Theorem sphere_target_deterministic :
  forall (i count : nat) (shape : string),
    shape <> "cat"%string -> shape <> "flower"%string ->
    shape <> "fish"%string -> shape <> "star"%string ->
    (forall g1 g2 : Rng,
        result (getTargetPosition i count shape g1)
        = result (getTargetPosition i count shape g2))
    /\ (forall (g : Rng) (v : THREE.Vector3) (g' : Rng),
          getTargetPosition i count shape g = Done v g' ->
          g' = g
          /\ v = THREE.setFromSphericalCoords 10
                   (acos (-1 + 2 * INR i / INR count))
                   (sqrt (INR count * PI) * acos (-1 + 2 * INR i / INR count)))
    /\ ((i < count)%nat ->
        forall g : Rng,
          getTargetPosition i count shape g
          = Done (THREE.setFromSphericalCoords 10
                    (acos (-1 + 2 * INR i / INR count))
                    (sqrt (INR count * PI) * acos (-1 + 2 * INR i / INR count)))
                 g).
Proof.
  intros i count shape N1 N2 N3 N4.
  assert (N : ~ randomShape shape) by (unfold randomShape; tauto).
  split; [| split].
  - intros g1 g2. apply (sphere_target_ignores_rng i count shape g1 g2 N).
  - intros g v g' E.
    apply (proj2 (sphere_target_ignores_rng i count shape g g N) v g' E).
  - intros Hi g. apply (sphere_target_at i count shape g Hi N).
Qed.

Lemma sphere_target_deterministic_witness :
  result (getTargetPosition 3 8 "sphere" (mkRng (fun _ => 0) 0))
  = result (getTargetPosition 3 8 "sphere" (mkRng (fun _ => 1 / 2) 4)).
Proof.
  apply (sphere_target_deterministic 3 8 "sphere");
    intros E; discriminate E.
Defined.

(** ** The fish branch *)

Lemma fish_target_body (i count : nat) (g : Rng) :
  (i < count)%nat -> Rabs (fishL i count) < 7 ->
  getTargetPosition i count "fish" g
  = Done (fishBody (fishL i count) (draw g 0) (draw g 1)) (advance 2 g).
Proof.
  intros Hi Hl. run_prelude Hi.
  change (String.eqb "fish" "cat") with false.
  change (String.eqb "fish" "flower") with false.
  change (String.eqb "fish" "fish") with true.
  cbv iota. fold (fishL i count). rewrite (Rltb_true _ _ Hl). reflexivity.
Qed.

Lemma fish_target_tail (i count : nat) (g : Rng) :
  (i < count)%nat -> 7 <= Rabs (fishL i count) ->
  getTargetPosition i count "fish" g
  = Done (fishTail (fishL i count) (draw g 0) (draw g 1)) (advance 2 g).
Proof.
  intros Hi Hl. run_prelude Hi.
  change (String.eqb "fish" "cat") with false.
  change (String.eqb "fish" "flower") with false.
  change (String.eqb "fish" "fish") with true.
  cbv iota. fold (fishL i count). rewrite (Rltb_false _ _ Hl). reflexivity.
Qed.

Lemma fish_samples_differ (l r1 r2 r3 r4 : R) : fishTail l r1 r2 <> fishBody l r3 r4.
Proof.
  unfold fishTail, fishBody. intros E.
  apply (f_equal THREE.x) in E. simpl in E. lra.
Qed.

Lemma fishL_29_30 : fishL 29 30 = 7.
Proof.
  unfold fishL. inr_const. lra.
Qed.

(** In binary64 too, [i = 29] and [count = 30] give [fishL = 7]
    exactly, and the test [Math.abs(fishL) < 7] fails. *)
Lemma fish_boundary_binary64 : Binary64.boundary = true.
Proof. vm_compute. reflexivity. Qed.

(** C7, as amended.  For [shape = 'fish'], every [count] and every
    [i < count]: the target samples the tail lobe exactly when
    [|fishL| >= 7] and the elliptical body cross-section exactly when
    [|fishL| < 7], where [fishL = (i/count - 0.5) * 15]; the two
    samples are never equal. *)
Theorem fish_tail_boundary :
  forall (i count : nat) (g : Rng),
    (i < count)%nat ->
    (7 <= Rabs (fishL i count) <->
       getTargetPosition i count "fish" g
       = Done (fishTail (fishL i count) (draw g 0) (draw g 1)) (advance 2 g))
    /\ (Rabs (fishL i count) < 7 <->
          getTargetPosition i count "fish" g
          = Done (fishBody (fishL i count) (draw g 0) (draw g 1)) (advance 2 g)).
Proof.
  intros i count g Hi.
  destruct (Rlt_dec (Rabs (fishL i count)) 7) as [B | T].
  - pose proof (fish_target_body i count g Hi B) as E. split; split.
    + intros H. lra.
    + intros E'. rewrite E in E'. apply Done_value in E'.
      exfalso. symmetry in E'. exact (fish_samples_differ _ _ _ _ _ E').
    + intros _. exact E.
    + intros _. exact B.
  - assert (T' : 7 <= Rabs (fishL i count)) by lra.
    pose proof (fish_target_tail i count g Hi T') as E. split; split.
    + intros _. exact E.
    + intros _. exact T'.
    + intros H. lra.
    + intros E'. rewrite E in E'. apply Done_value in E'.
      exfalso. exact (fish_samples_differ _ _ _ _ _ E').
Qed.

Lemma fish_tail_boundary_witness :
  Rabs (fishL 29 30) < 7 <->
  getTargetPosition 29 30 "fish" (mkRng (fun _ => 0) 0)
  = Done (fishBody (fishL 29 30) (draw (mkRng (fun _ => 0) 0) 0)
                   (draw (mkRng (fun _ => 0) 0) 1))
         (advance 2 (mkRng (fun _ => 0) 0)).
Proof.
  apply (fish_tail_boundary 29 30 (mkRng (fun _ => 0) 0)). lia.
Defined.

(** C7 as written fails on the boundary: at [i = 29], [count = 30] the
    coordinate [fishL] is exactly 7, so [|fishL| <= 7], and the code
    samples the tail lobe, not the body. *)
Lemma fish_boundary_counterexample :
  (29 < 30)%nat
  /\ Rabs (fishL 29 30) <= 7
  /\ getTargetPosition 29 30 "fish" (mkRng (fun _ => 0) 0)
     = Done (fishTail (fishL 29 30) 0 0) (mkRng (fun _ => 0) 2)
  /\ getTargetPosition 29 30 "fish" (mkRng (fun _ => 0) 0)
     <> Done (fishBody (fishL 29 30) 0 0) (mkRng (fun _ => 0) 2).
Proof.
  assert (A : Rabs (fishL 29 30) = 7).
  { rewrite fishL_29_30. apply Rabs_pos_eq. lra. }
  assert (Hi : (29 < 30)%nat) by lia.
  assert (T : 7 <= Rabs (fishL 29 30)) by lra.
  pose proof (fish_target_tail 29 30 (mkRng (fun _ => 0) 0) Hi T) as E.
  split; [exact Hi | split; [lra | split]].
  - exact E.
  - rewrite E. intros E'. apply Done_value in E'.
    exact (fish_samples_differ _ _ _ _ _ E').
Qed.

(** ** Hand interaction *)

Lemma squares_nonneg (a b c : R) : 0 <= a * a + b * b + c * c.
Proof. nra. Qed.

(** The interaction always runs to its end, draws at most once, and
    changes nothing but the velocity. *)
Lemma handInteraction_runs (shape : string) (handX handY : R)
      (particle : Particle) (g : Rng) :
  exists (vx vy vz : R) (g' : Rng),
    handInteraction shape handX handY particle g
    = Done (P.mk (P.t particle) (P.x particle) (P.y particle) (P.z particle)
                 (P.baseX particle) (P.baseY particle) (P.baseZ particle)
                 vx vy vz) g'
    /\ (g' = g \/ g' = advance 1 g).
Proof.
  destruct particle as [t x y z bx by' bz vx vy vz].
  unfold handInteraction, bind. rewrite sqrt_ok by apply squares_nonneg.
  cbv zeta. simpl P.t; simpl P.x; simpl P.y; simpl P.z.
  simpl P.baseX; simpl P.baseY; simpl P.baseZ.
  destruct (Rltb _ 25).
  - rewrite divide_ok by lra.
    destruct (String.eqb shape "cat" && Rltb _ 8).
    + do 4 eexists. split; [reflexivity | right; reflexivity].
    + destruct (String.eqb shape "flower").
      * do 4 eexists. split; [reflexivity | left; reflexivity].
      * do 4 eexists. split; [reflexivity | left; reflexivity].
  - do 4 eexists. split; [reflexivity | left; reflexivity].
Qed.

(** The default interaction: vortex and suction, no draw. *)
Lemma handInteraction_vortex (shape : string) (handX handY : R)
      (particle : Particle) (g : Rng) :
  shape = "sphere"%string \/ shape = "fish"%string \/ shape = "star"%string ->
  let dx := P.x particle - handX in
  let dy := P.y particle - handY in
  let dz := P.z particle - 0 in
  let dist := sqrt (dx * dx + dy * dy + dz * dz) in
  0 < dist < 25 ->
  let influence := 1 - dist / 25 in
  let power := influence * influence in
  handInteraction shape handX handY particle g
  = Done (P.mk (P.t particle)
               (P.x particle) (P.y particle) (P.z particle)
               (P.baseX particle) (P.baseY particle) (P.baseZ particle)
               (P.vx particle + - dy * 0.8 * power * 0.1
                              + - dx * 0.5 * power * 0.1)
               (P.vy particle + dx * 0.8 * power * 0.1
                              + - dy * 0.5 * power * 0.1)
               (P.vz particle + 0 * 0.8 * power * 0.1
                              + - dz * 0.5 * power * 0.1))
         g.
Proof.
  intros Hs dx dy dz dist Hd influence power.
  destruct particle as [t x y z bx by' bz vx vy vz].
  simpl in dx, dy, dz.
  assert (Ecat : String.eqb shape "cat" = false)
    by (destruct Hs as [-> | [-> | ->]]; reflexivity).
  assert (Eflower : String.eqb shape "flower" = false)
    by (destruct Hs as [-> | [-> | ->]]; reflexivity).
  unfold handInteraction, bind. rewrite sqrt_ok by apply squares_nonneg.
  cbv zeta. fold dx dy dz. fold dist.
  rewrite (Rltb_true dist 25) by lra.
  rewrite divide_ok by lra. rewrite Ecat, Eflower.
  cbn [andb]. fold influence. fold power.
  unfold ret. simpl P.t; simpl P.x; simpl P.y; simpl P.z.
  simpl P.baseX; simpl P.baseY; simpl P.baseZ.
  simpl P.vx; simpl P.vy; simpl P.vz.
  f_equal. f_equal; lra.
Qed.

(** The callback is the morph, then the interaction when the hand is
    detected, then the integration. *)
Lemma updateParticle_phases (count : nat) (visual : VisualParams) (bass : R)
      (handX handY : R) (isHandActive : bool) (i : nat)
      (particle : Particle) (g g1 : Rng) (target : THREE.Vector3) :
  getTargetPosition i count (shape visual) g = Done target g1 ->
  updateParticle count visual bass handX handY isHandActive i particle g
  = (do touched <- (if isHandActive
                    then handInteraction (shape visual) handX handY
                                         (morphed visual bass target particle)
                    else ret (morphed visual bass target particle)) ;;
     ret (integrated visual isHandActive touched)) g1.
Proof.
  intros Ht. destruct particle as [t x y z bx by' bz vx vy vz].
  unfold updateParticle, bind. rewrite Ht. cbv zeta.
  unfold morphed. cbn [P.t P.x P.y P.z P.baseX P.baseY P.baseZ P.vx P.vy P.vz].
  destruct isHandActive.
  - match goal with
    | |- context [handInteraction ?s ?hx ?hy ?p ?gg] =>
        destruct (handInteraction_runs s hx hy p gg)
          as (vx' & vy' & vz' & g' & E & _)
    end.
    cbn [P.t P.x P.y P.z P.baseX P.baseY P.baseZ P.vx P.vy P.vz] in E.
    rewrite E. reflexivity.
  - reflexivity.
Qed.

(** C6. With the pointer detected ([isHandActive] true), a shape among
    sphere, fish and star, and a particle at distance [0 < dist < 25]
    from the pointer's world position [(handX, handY, 0)], the step adds
    to the velocity exactly the tangential vortex term
    [(-dy, dx, 0) * 0.8 * power * 0.1] and the radial suction term
    [-(dx, dy, dz) * 0.5 * power * 0.1], with [influence = 1 - dist/25]
    and [power = influence^2]: the interaction leaves the velocity so
    increased and draws no random number, the callback then applies the
    friction 0.92 and the spring 0.01 of a detected hand to that
    velocity, and a frame whose pointer is detected at
    [(handX / 30, handY / 20)] does so to the particle of its store. *)
Theorem vortex_and_suction :
  forall (count : nat) (data : SongData) (handPosition : HandPosition.t)
         (freqData : list nat) (i : nat) (particle : Particle) (g g1 : Rng)
         (target : THREE.Vector3),
    let visual := visualParams data in
    let handX := HandPosition.x handPosition * 30 in
    let handY := HandPosition.y handPosition * 20 in
    shape visual = "sphere"%string \/ shape visual = "fish"%string
    \/ shape visual = "star"%string ->
    HandPosition.isDetected handPosition = true ->
    let dx := P.x particle - handX in
    let dy := P.y particle - handY in
    let dz := P.z particle - 0 in
    let dist := sqrt (dx * dx + dy * dy + dz * dz) in
    0 < dist < 25 ->
    let influence := 1 - dist / 25 in
    let power := influence * influence in
    let vx := P.vx particle + - dy * 0.8 * power * 0.1
                            + - dx * 0.5 * power * 0.1 in
    let vy := P.vy particle + dx * 0.8 * power * 0.1
                            + - dy * 0.5 * power * 0.1 in
    let vz := P.vz particle + 0 * 0.8 * power * 0.1
                            + - dz * 0.5 * power * 0.1 in
    handInteraction (shape visual) handX handY particle g
    = Done (withVelocity particle vx vy vz) g
    /\ (forall bass : R,
          getTargetPosition i count (shape visual) g = Done target g1 ->
          updateParticle count visual bass handX handY
                         (HandPosition.isDetected handPosition) i particle g
          = Done (integrated visual true
                    (withVelocity (morphed visual bass target particle)
                                  vx vy vz))
                 g1)
    /\ (getTargetPosition 0 count (shape visual) g = Done target g1 ->
        useFrame count true (Some data) handPosition freqData [particle] g
        = Done [integrated visual true
                  (withVelocity (morphed visual (bassOf freqData) target particle)
                                vx vy vz)]
               g1).
Proof.
  intros count data handPosition freqData i particle g g1 target
         visual handX handY Hs Hd dx dy dz dist Hdist influence power vx vy vz.
  assert (Step : forall (bass : R) (j : nat),
             getTargetPosition j count (shape visual) g = Done target g1 ->
             updateParticle count visual bass handX handY true j particle g
             = Done (integrated visual true
                       (withVelocity (morphed visual bass target particle)
                                     vx vy vz))
                    g1).
  { intros bass j Ht.
    rewrite (updateParticle_phases _ _ _ _ _ _ _ _ _ _ _ Ht). unfold bind.
    rewrite (handInteraction_vortex (shape visual) handX handY
               (morphed visual bass target particle) g1 Hs); [reflexivity |].
    destruct particle; exact Hdist. }
  split; [| split].
  - rewrite (handInteraction_vortex (shape visual) handX handY particle g Hs Hdist).
    destruct particle; reflexivity.
  - intros bass Ht. rewrite Hd. exact (Step bass i Ht).
  - intros Ht. unfold useFrame. change (negb true) with false. cbv beta iota.
    unfold bind. rewrite !divide_ok by lra.
    fold handX handY visual. rewrite Hd. cbn [forEach]. unfold bind.
    rewrite (Step _ 0%nat Ht). reflexivity.
Qed.

Lemma vortex_and_suction_witness :
  useFrame 1 true
           (Some (mkSongData "" "" "" 90 "C" "major"
                    (mkVisualParams 1 1 1 [] "sphere")))
           (HandPosition.mk 0 0 true) [] [P.mk 0 3 4 0 1 2 3 0 0 0]
           (mkRng (fun _ => 0) 0)
  = Done [integrated (mkVisualParams 1 1 1 [] "sphere") true
            (withVelocity (morphed (mkVisualParams 1 1 1 [] "sphere") (bassOf [])
                                   (sphereTarget 0 1)
                                   (P.mk 0 3 4 0 1 2 3 0 0 0))
                          (-0.3008) 0.0256 0)]
         (mkRng (fun _ => 0) 0).
Proof.
  assert (D : sqrt ((3 - 0 * 30) * (3 - 0 * 30) + (4 - 0 * 20) * (4 - 0 * 20)
                    + (0 - 0) * (0 - 0)) = 5).
  { replace ((3 - 0 * 30) * (3 - 0 * 30) + (4 - 0 * 20) * (4 - 0 * 20)
             + (0 - 0) * (0 - 0))
      with (5 * 5) by lra.
    apply sqrt_square. lra. }
  assert (N : ~ randomShape "sphere").
  { unfold randomShape. intros [H | [H | [H | H]]]; discriminate H. }
  assert (Hi : (0 < 1)%nat) by lia.
  destruct (vortex_and_suction 1
              (mkSongData "" "" "" 90 "C" "major"
                          (mkVisualParams 1 1 1 [] "sphere"))
              (HandPosition.mk 0 0 true) [] 0 (P.mk 0 3 4 0 1 2 3 0 0 0)
              (mkRng (fun _ => 0) 0) (mkRng (fun _ => 0) 0) (sphereTarget 0 1))
    as (_ & _ & U).
  - left. reflexivity.
  - reflexivity.
  - simpl. rewrite D. lra.
  - rewrite U by exact (sphere_target_at 0 1 "sphere" _ Hi N).
    simpl P.x; simpl P.y; simpl P.z; simpl P.vx; simpl P.vy; simpl P.vz.
    simpl HandPosition.x; simpl HandPosition.y. rewrite D.
    f_equal. f_equal. f_equal. f_equal; lra.
Defined.

(** ** The morph of the base position *)

(** Once the target is known the callback always runs to its end; the
    base position it leaves is the blend of the old one with the
    target, and the phase advances by [speed * (0.005 + bass * 0.05)]. *)
Lemma updateParticle_runs (count : nat) (visual : VisualParams) (bass : R)
      (handX handY : R) (isHandActive : bool) (i : nat)
      (particle : Particle) (g g1 : Rng) (target : THREE.Vector3) :
  getTargetPosition i count (shape visual) g = Done target g1 ->
  exists (particle' : Particle) (g' : Rng),
    updateParticle count visual bass handX handY isHandActive i particle g
    = Done particle' g'
    /\ P.baseX particle'
       = P.baseX particle + (THREE.x target - P.baseX particle) * 0.03
    /\ P.baseY particle'
       = P.baseY particle + (THREE.y target - P.baseY particle) * 0.03
    /\ P.baseZ particle'
       = P.baseZ particle + (THREE.z target - P.baseZ particle) * 0.03
    /\ P.t particle' = P.t particle + speed visual * (0.005 + bass * 0.05).
Proof.
  intros Ht. destruct particle as [t x y z bx by' bz vx vy vz].
  unfold updateParticle, bind. rewrite Ht. cbv zeta.
  destruct isHandActive.
  - match goal with
    | |- context [handInteraction ?s ?hx ?hy ?p ?gg] =>
        destruct (handInteraction_runs s hx hy p gg)
          as (vx' & vy' & vz' & g' & E & _)
    end.
    rewrite E. do 2 eexists. split; [reflexivity |].
    simpl. repeat split; reflexivity.
  - do 2 eexists. split; [reflexivity |].
    simpl. repeat split; reflexivity.
Qed.

Lemma blend_axis (b T e : R) :
  b - T = e -> b + (T - b) * 0.03 - T = 0.97 * e.
Proof. intros <-. lra. Qed.

Lemma morph_axes (T : THREE.Vector3) (k : nat) (p0 p : Particle) :
  morphsToward T k p0 p ->
  P.baseX p - THREE.x T = (P.baseX p0 - THREE.x T) * 0.97 ^ k
  /\ P.baseY p - THREE.y T = (P.baseY p0 - THREE.y T) * 0.97 ^ k
  /\ P.baseZ p - THREE.z T = (P.baseZ p0 - THREE.z T) * 0.97 ^ k.
Proof.
  induction 1 as [p | k p0 p p' count visual bass hx hy act i g g1 g' _ IH Ht Hu].
  - simpl. repeat split; ring.
  - destruct (updateParticle_runs count visual bass hx hy act i p g g1 T Ht)
      as (q & gq & Eq & Bx & By & Bz & _).
    rewrite Eq in Hu. apply Done_value in Hu. subst q.
    destruct IH as (Ix & Iy & Iz).
    rewrite Bx, By, Bz. simpl pow.
    repeat split;
      [rewrite (blend_axis _ _ _ Ix) | rewrite (blend_axis _ _ _ Iy)
       | rewrite (blend_axis _ _ _ Iz)]; lra.
Qed.

(** C3. The morph update is [basePosition += (target - basePosition) *
    0.03] on each axis: whenever the target computed for the particle
    is [T], the callback leaves [base + (T - base) * 0.03] on each
    axis.  Hence, when the target is the same [T] over [k] frames, the
    distance of the base position from [T] is exactly the initial
    distance times [0.97 ^ k]. *)
Theorem morph_geometric_decay :
  forall (T : THREE.Vector3) (k : nat) (p0 p : Particle),
    morphsToward T k p0 p ->
    (forall (count : nat) (visual : VisualParams) (bass handX handY : R)
            (isHandActive : bool) (i : nat) (g g1 g' : Rng) (p' : Particle),
        getTargetPosition i count (shape visual) g = Done T g1 ->
        updateParticle count visual bass handX handY isHandActive i p g
        = Done p' g' ->
        P.baseX p' = P.baseX p + (THREE.x T - P.baseX p) * 0.03
        /\ P.baseY p' = P.baseY p + (THREE.y T - P.baseY p) * 0.03
        /\ P.baseZ p' = P.baseZ p + (THREE.z T - P.baseZ p) * 0.03)
    /\ baseDistance p T = baseDistance p0 T * 0.97 ^ k.
Proof.
  intros T k p0 p H. split.
  - intros count visual bass hx hy act i g g1 g' p' Ht Hu.
    destruct (updateParticle_runs count visual bass hx hy act i p g g1 T Ht)
      as (q & gq & Eq & Bx & By & Bz & _).
    rewrite Eq in Hu. apply Done_value in Hu. subst q. auto.
  - destruct (morph_axes T k p0 p H) as (Ix & Iy & Iz).
    unfold baseDistance. rewrite Ix, Iy, Iz.
    assert (Hk : 0 <= 0.97 ^ k) by (apply pow_le; lra).
    rewrite <- (sqrt_square (0.97 ^ k)) at 7 by exact Hk.
    rewrite <- sqrt_mult.
    + f_equal. ring.
    + apply squares_nonneg.
    + apply Rle_0_sqr.
Qed.

Lemma morph_geometric_decay_witness :
  exists p1 : Particle,
    updateParticle 1 (mkVisualParams 0 0 1 [] "sphere") 0 0 0 false 0
                   (P.mk 0 1 2 3 4 5 6 0 0 0) (mkRng (fun _ => 0) 0)
    = Done p1 (mkRng (fun _ => 0) 0)
    /\ baseDistance p1 (THREE.setFromSphericalCoords 10 (phiOf 0 1) (thetaOf 0 1))
       = baseDistance (P.mk 0 1 2 3 4 5 6 0 0 0)
                      (THREE.setFromSphericalCoords 10 (phiOf 0 1) (thetaOf 0 1))
         * 0.97 ^ 1.
Proof.
  assert (Ht : getTargetPosition 0 1 "sphere" (mkRng (fun _ => 0) 0)
               = Done (THREE.setFromSphericalCoords 10 (phiOf 0 1) (thetaOf 0 1))
                      (mkRng (fun _ => 0) 0)).
  { apply sphere_target_at; [lia |].
    unfold randomShape. intros [E | [E | [E | E]]]; discriminate E. }
  eexists. split.
  - unfold updateParticle, bind. 
    change (shape (mkVisualParams 0 0 1 [] "sphere")) with "sphere"%string.
    rewrite Ht. reflexivity.
  - apply (morph_geometric_decay _ 1 (P.mk 0 1 2 3 4 5 6 0 0 0)).
    eapply (morph_frame _ 0 _ _ _ 1 (mkVisualParams 0 0 1 [] "sphere")
                        0 0 0 false 0).
    + apply morph_start.
    + exact Ht.
    + unfold updateParticle, bind.
      change (shape (mkVisualParams 0 0 1 [] "sphere")) with "sphere"%string.
      rewrite Ht. reflexivity.
Defined.

(** ** The palette effect *)

Lemma advance_advance (n m : nat) (g : Rng) :
  advance n (advance m g) = advance (n + m) g.
Proof. unfold advance. simpl. f_equal. lia. Qed.

Lemma draw_advance (n k : nat) (g : Rng) :
  draw (advance n g) k = draw g (k + n).
Proof. unfold draw, advance. simpl. f_equal. lia. Qed.

Lemma RngOk_advance (n : nat) (g : Rng) : RngOk g -> RngOk (advance n g).
Proof. intros H k. exact (H k). Qed.

Lemma draw_range (g : Rng) (k : nat) : RngOk g -> 0 <= draw g k < 1.
Proof. intros H. exact (H _). Qed.

(** The index is [j] exactly for the draws of [[j/n, (j+1)/n)], an
    interval of length [1/n] for each [j]: a uniform draw selects
    uniformly. *)
Lemma colorIndex_interval (n j : nat) (u : R) :
  (1 <= n)%nat ->
  colorIndex n u = Z.of_nat j <-> INR j / INR n <= u < (INR j + 1) / INR n.
Proof.
  intros Hn. assert (Hpos : 0 < INR n) by (apply lt_0_INR; lia).
  unfold colorIndex, Math.floor. rewrite !INR_IZR_INZ in *.
  set (N := IZR (Z.of_nat n)) in *.
  assert (L : forall a : R, a / N * N = a) by (intros a; field; lra).
  split.
  - intros E. pose proof (Zfloor_bound (u * N)) as B. rewrite E in B.
    destruct B as [B1 B2]. split.
    + apply (Rmult_le_reg_r N); [exact Hpos | rewrite L; exact B1].
    + apply (Rmult_lt_reg_r N); [exact Hpos | rewrite L; exact B2].
  - intros [B1 B2]. apply Zfloor_eq. split.
    + apply (Rmult_le_compat_r N) in B1; [| lra]. rewrite L in B1. exact B1.
    + apply (Rmult_lt_compat_r N) in B2; [| lra]. rewrite L in B2. exact B2.
Qed.

Lemma colorIndex_range (n : nat) (u : R) :
  (1 <= n)%nat -> 0 <= u < 1 ->
  (0 <= colorIndex n u < Z.of_nat n)%Z.
Proof.
  intros Hn [U0 U1]. assert (Hpos : 0 < INR n) by (apply lt_0_INR; lia).
  unfold colorIndex, Math.floor.
  pose proof (Zfloor_bound (u * INR n)) as [B1 B2].
  split.
  - apply Zfloor_lub. simpl. apply Rmult_le_pos; lra.
  - apply lt_IZR. rewrite <- INR_IZR_INZ.
    apply Rle_lt_trans with (u * INR n); [exact B1 |].
    rewrite <- (Rmult_1_l (INR n)) at 2.
    apply Rmult_lt_compat_r; assumption.
Qed.

Lemma index_in_range {A : Type} (array : list A) (k : Z) :
  (0 <= k < Z.of_nat (length array))%Z ->
  exists a : A, index array k = Some a /\ array !! Z.to_nat k = Some a.
Proof.
  intros [K0 K1]. unfold index.
  destruct (Z.ltb_spec k 0) as [N | _]; [lia |].
  destruct (lookup_lt_is_Some_2 array (Z.to_nat k)) as [a E]; [lia |].
  exists a. split; exact E.
Qed.

Lemma toArray_spec (c : THREE.Color) (array : list R) (offset : nat) :
  (offset + 2 < length array)%nat ->
  length (THREE.toArray c array offset) = length array
  /\ THREE.toArray c array offset !! offset = Some (THREE.r c)
  /\ THREE.toArray c array offset !! (offset + 1)%nat = Some (THREE.g c)
  /\ THREE.toArray c array offset !! (offset + 2)%nat = Some (THREE.b c)
  /\ (forall m : nat, (m < offset)%nat ->
        THREE.toArray c array offset !! m = array !! m).
Proof.
  intros H. unfold THREE.toArray. repeat split.
  - rewrite !length_insert. reflexivity.
  - rewrite list_lookup_insert_ne by lia.
    rewrite list_lookup_insert_ne by lia.
    apply list_lookup_insert_eq. lia.
  - rewrite list_lookup_insert_ne by lia.
    apply list_lookup_insert_eq. rewrite length_insert. lia.
  - apply list_lookup_insert_eq. rewrite !length_insert. lia.
  - intros m Hm. rewrite !list_lookup_insert_ne by lia. reflexivity.
Qed.

Lemma colorLoop_spec (colors : list THREE.Color) :
  (1 <= length colors)%nat ->
  forall (n i : nat) (array : list R) (g : Rng),
    RngOk g -> ((i + n) * 3 <= length array)%nat ->
    exists array' : list R,
      colorLoop colors n i array g = Done array' (advance n g)
      /\ length array' = length array
      /\ (forall m : nat, (m < i * 3)%nat -> array' !! m = array !! m)
      /\ (forall j : nat, (j < n)%nat ->
            exists c : THREE.Color,
              colors !! Z.to_nat (colorIndex (length colors) (draw g j)) = Some c
              /\ painted array' (i + j) c).
Proof.
  intros Hc. induction n as [| n IH]; intros i array g Hg Hlen.
  - exists array. repeat split.
    + destruct g; reflexivity.
    + intros j Hj. lia.
  - simpl colorLoop. unfold bind, Math.random.
    pose proof (colorIndex_range (length colors) (draw g 0) Hc (draw_range g 0 Hg)) as Hk.
    destruct (index_in_range colors _ Hk) as (c & Ec & Lc).
    unfold colorIndex in Ec. unfold draw in Ec. simpl in Ec. rewrite Ec.
    change (mkRng (draws g) (S (cursor g))) with (advance 1 g).
    destruct (toArray_spec c array (i * 3)) as (T0 & T1 & T2 & T3 & T4); [lia |].
    destruct (IH (S i) (THREE.toArray c array (i * 3)) (advance 1 g))
      as (array' & E & L & Keep & Paint).
    { apply RngOk_advance. exact Hg. }
    { rewrite T0. lia. }
    exists array'. rewrite E. rewrite advance_advance.
    replace (n + 1)%nat with (S n) by lia.
    split; [reflexivity |]. split; [congruence |]. split.
    + intros m Hm. rewrite Keep by lia. apply T4. exact Hm.
    + intros [| j] Hj.
      * exists c. split; [exact Lc |].
        replace (i + 0)%nat with i by lia.
        unfold painted. rewrite !Keep by lia. auto.
      * destruct (Paint j) as (c' & Ec' & Pc'); [lia |].
        exists c'. rewrite draw_advance in Ec'.
        replace (j + 1)%nat with (S j) in Ec' by lia.
        split; [exact Ec' |].
        replace (i + S j)%nat with (S i + j)%nat by lia. exact Pc'.
Qed.

(** C8. On a palette change with a palette of at least one colour the
    assignment runs without error; particle [i] receives the palette
    entry of index [floor(u_i * n)], where [u_i] is the particle's own
    draw and [n] the palette length; that index lies within the
    palette, and it is [j] exactly for the draws of
    [[j/n, (j+1)/n)], so a uniform draw selects uniformly.  With a
    single-entry palette every particle receives that one colour. *)
Theorem palette_assignment :
  forall (newColor : string -> THREE.Color) (data : SongData) (count : nat)
         (colorArray : list R) (g : Rng),
    RngOk g ->
    length colorArray = (count * 3)%nat ->
    (1 <= length (colorPalette (visualParams data)))%nat ->
    exists colorArray' : list R,
      updateColors newColor (Some data) true count colorArray g
      = Done colorArray' (advance count g)
      /\ (forall i : nat, (i < count)%nat ->
            exists (k : nat) (c : string),
              colorIndex (length (colorPalette (visualParams data))) (draw g i)
              = Z.of_nat k
              /\ (k < length (colorPalette (visualParams data)))%nat
              /\ colorPalette (visualParams data) !! k = Some c
              /\ painted colorArray' i (newColor c))
      /\ (forall (j : nat) (u : R),
            colorIndex (length (colorPalette (visualParams data))) u = Z.of_nat j
            <-> INR j / INR (length (colorPalette (visualParams data))) <= u
                < (INR j + 1) / INR (length (colorPalette (visualParams data))))
      /\ (forall c : string,
            colorPalette (visualParams data) = [c] ->
            forall i : nat, (i < count)%nat -> painted colorArray' i (newColor c)).
Proof.
  intros newColor data count colorArray g Hg Hlen Hn.
  set (palette := colorPalette (visualParams data)) in *.
  assert (Hm : length (map newColor palette) = length palette)
    by apply length_map.
  destruct (colorLoop_spec (map newColor palette)) with
    (n := count) (i := 0%nat) (array := colorArray) (g := g)
    as (array' & E & _ & _ & Paint); [lia | exact Hg | lia |].
  assert (Each : forall i : nat, (i < count)%nat ->
            exists (k : nat) (c : string),
              colorIndex (length palette) (draw g i) = Z.of_nat k
              /\ (k < length palette)%nat
              /\ palette !! k = Some c
              /\ painted array' i (newColor c)).
  { intros i Hi. destruct (Paint i Hi) as (c' & Ec' & Pc').
    rewrite Hm in Ec'.
    pose proof (colorIndex_range (length palette) (draw g i) Hn (draw_range g i Hg)) as Hk.
    set (kz := colorIndex (length palette) (draw g i)) in *.
    change (map newColor palette) with (newColor <$> palette) in Ec'.
    rewrite list_lookup_fmap in Ec'.
    destruct (palette !! Z.to_nat kz) as [c |] eqn:Ep; [| discriminate Ec'].
    simpl in Ec'. assert (c' = newColor c) by congruence. subst c'.
    exists (Z.to_nat kz), c. repeat split.
    - lia.
    - lia.
    - exact Ep.
    - apply Pc'.
    - apply Pc'.
    - apply Pc'. }
  exists array'. split; [| split; [| split]].
  - unfold updateColors. simpl negb. cbv iota. exact E.
  - exact Each.
  - intros j u. apply colorIndex_interval. exact Hn.
  - intros c Ec i Hi. destruct (Each i Hi) as (k & c0 & _ & Hk & Ek & Pk).
    rewrite Ec in Hk, Ek. simpl in Hk.
    assert (k = 0%nat) by lia. subst k. simpl in Ek.
    assert (c0 = c) by congruence. subst c0. exact Pk.
Qed.

Lemma palette_assignment_witness :
  exists colorArray' : list R,
    updateColors (fun _ => THREE.mkColor 1 0 0)
                 (Some (mkSongData "" "" "" 90 "C" "major"
                          (mkVisualParams 0 1 1 ["#ff0000"%string] "sphere")))
                 true 2 [0; 0; 0; 0; 0; 0] (mkRng (fun _ => 1 / 2) 0)
    = Done colorArray' (advance 2 (mkRng (fun _ => 1 / 2) 0))
    /\ painted colorArray' 1 (THREE.mkColor 1 0 0).
Proof.
  destruct (palette_assignment (fun _ => THREE.mkColor 1 0 0)
              (mkSongData "" "" "" 90 "C" "major"
                 (mkVisualParams 0 1 1 ["#ff0000"%string] "sphere"))
              2 [0; 0; 0; 0; 0; 0] (mkRng (fun _ => 1 / 2) 0))
    as (array' & E & _ & _ & One).
  - intros n. simpl. lra.
  - reflexivity.
  - simpl. lia.
  - exists array'. split; [exact E |].
    apply (One "#ff0000"%string); [reflexivity | lia].
Defined.

(** ** Reasoning on runs *)

Lemma wp_Done {A : Type} (m : Js A) (g : Rng) (Q : A -> Rng -> Prop) :
  wp m g Q -> exists (a : A) (g' : Rng), m g = Done a g' /\ Q a g'.
Proof.
  unfold wp. destruct (m g) as [a g' | e]; [| contradiction].
  intros H. exists a, g'. split; [reflexivity | exact H].
Qed.

Lemma wp_ret {A : Type} (a : A) (g : Rng) (Q : A -> Rng -> Prop) :
  Q a g -> wp (ret a) g Q.
Proof. intros H. exact H. Qed.

Lemma wp_bind {A B : Type} (m : Js A) (k : A -> Js B) (g : Rng)
      (Q : B -> Rng -> Prop) :
  wp m g (fun a g' => wp (k a) g' Q) -> wp (bind m k) g Q.
Proof.
  unfold wp, bind. destruct (m g) as [a g' | e]; [| contradiction].
  intros H. exact H.
Qed.

Lemma wp_mono {A : Type} (m : Js A) (g : Rng) (Q Q' : A -> Rng -> Prop) :
  (forall a g', Q a g' -> Q' a g') -> wp m g Q -> wp m g Q'.
Proof.
  unfold wp. intros H. destruct (m g) as [a g' | e]; [apply H | intros F; exact F].
Qed.

Lemma wp_random (g : Rng) (Q : R -> Rng -> Prop) :
  RngOk g ->
  (forall u : R, 0 <= u < 1 -> forall g' : Rng, RngOk g' -> Q u g') ->
  wp Math.random g Q.
Proof.
  intros Hg H. unfold wp, Math.random. apply H; [apply Hg |].
  intros n. apply Hg.
Qed.

Lemma wp_divide (a b : R) (g : Rng) (Q : R -> Rng -> Prop) :
  b <> 0 -> Q (a / b) g -> wp (a // b) g Q.
Proof. intros Hb H. unfold wp. rewrite divide_ok by exact Hb. exact H. Qed.

Lemma wp_sqrt (a : R) (g : Rng) (Q : R -> Rng -> Prop) :
  0 <= a -> Q (sqrt a) g -> wp (Math.sqrt a) g Q.
Proof. intros Ha H. unfold wp. rewrite sqrt_ok by exact Ha. exact H. Qed.

Lemma wp_acos (a : R) (g : Rng) (Q : R -> Rng -> Prop) :
  -1 <= a <= 1 -> Q (acos a) g -> wp (Math.acos a) g Q.
Proof. intros Ha H. unfold wp. rewrite acos_ok by exact Ha. exact H. Qed.

Lemma Rpower_unit (a b : R) : 0 < a < 1 -> 0 < b -> 0 < Rpower a b < 1.
Proof.
  intros [A0 A1] Hb. unfold Rpower. split; [apply exp_pos |].
  rewrite <- exp_0. apply exp_increasing.
  assert (L : ln a < 0) by (rewrite <- ln_1; apply ln_increasing; lra).
  nra.
Qed.

(** [Math.pow] of a draw stays in [0, 1). *)
Lemma wp_pow_unit (a b : R) (g : Rng) (Q : R -> Rng -> Prop) :
  0 <= a < 1 -> 0 < b ->
  (forall v : R, 0 <= v < 1 -> Q v g) ->
  wp (Math.pow a b) g Q.
Proof.
  intros [A0 A1] Hb H. unfold wp, Math.pow.
  destruct (Rlt_dec a 0) as [N | _]; [lra |].
  destruct (Req_dec_T a 0) as [Z | NZ].
  - apply H. lra.
  - apply H. destruct (Rpower_unit a b); [lra | exact Hb | lra].
Qed.

(** ** Every target lies well inside the scene *)

Lemma spherical_lengthSq (radius phi theta : R) :
  THREE.lengthSq (THREE.setFromSphericalCoords radius phi theta) = radius * radius.
Proof.
  unfold THREE.lengthSq, THREE.setFromSphericalCoords. simpl.
  pose proof (sin2_cos2 phi) as P. pose proof (sin2_cos2 theta) as T.
  unfold Rsqr in P, T.
  transitivity (radius * radius
                * (sin phi * sin phi * (sin theta * sin theta + cos theta * cos theta)
                   + cos phi * cos phi)); [ring |].
  rewrite T, Rmult_1_r, P. ring.
Qed.

(** Runs one of the partial operations at the head of a sequence. *)
Ltac wp_op :=
  apply wp_bind;
  first [ apply wp_divide | apply wp_acos | apply wp_sqrt ];
  cbv beta.

Lemma target_bounded (i count : nat) (shape : string) (g : Rng) :
  (i < count)%nat -> RngOk g ->
  wp (getTargetPosition i count shape) g
     (fun v g' => THREE.lengthSq v < 400 /\ RngOk g').
Proof.
  intros Hi Hg. pose proof (INR_index_bounds i count Hi) as Hb.
  pose proof (ratio_bounds i count Hi) as Hr.
  unfold getTargetPosition.
  wp_op; [lra |]. wp_op; [lra |].
  wp_op; [apply acos_arg_bounds; exact Hi |].
  wp_op; [apply count_pi_nonneg |].
  cbv zeta.
  set (phi := acos _). set (theta := sqrt _ * phi). set (ratio := INR i / INR count) in *.
  destruct (String.eqb shape "cat").
  - destruct (Rltb ratio 0.35); [| destruct (Rltb ratio 0.85); [| destruct (Rltb ratio 0.92)]].
    + apply wp_ret. split; [| exact Hg].
      pose proof (spherical_lengthSq 3 (phi * 2) theta) as N.
      pose proof (COS_bound (phi * 2)) as C.
      unfold THREE.lengthSq, THREE.setFromSphericalCoords in *. simpl in *. nra.
    + apply wp_ret. split; [| exact Hg].
      pose proof (spherical_lengthSq 4.5 phi theta) as N.
      pose proof (COS_bound phi) as C.
      unfold THREE.lengthSq, THREE.setFromSphericalCoords in *. simpl in *. nra.
    + apply wp_bind, wp_random; [exact Hg |]. intros u1 U1 g1 Hg1.
      apply wp_bind, wp_random; [exact Hg1 |]. intros u2 U2 g2 Hg2.
      apply wp_bind, wp_random; [exact Hg2 |]. intros u3 U3 g3 Hg3.
      apply wp_ret. split; [| exact Hg3].
      unfold THREE.lengthSq. simpl. nra.
    + apply wp_bind, wp_random; [exact Hg |]. intros u1 U1 g1 Hg1.
      apply wp_bind, wp_random; [exact Hg1 |]. intros u2 U2 g2 Hg2.
      apply wp_bind, wp_random; [exact Hg2 |]. intros u3 U3 g3 Hg3.
      apply wp_ret. split; [| exact Hg3].
      unfold THREE.lengthSq. simpl. nra.
  - destruct (String.eqb shape "flower"); [| destruct (String.eqb shape "fish");
      [| destruct (String.eqb shape "star")]].
    + (* flower *)
      apply wp_bind, wp_random; [exact Hg |]. intros u1 U1 g1 Hg1.
      apply wp_bind, wp_random; [exact Hg1 |]. intros u2 U2 g2 Hg2.
      apply wp_ret. split; [| exact Hg2].
      unfold THREE.lengthSq. simpl.
      set (flowerR := 8 * Rabs (cos (6 * 0.5 * theta))).
      assert (F : 0 <= flowerR <= 8).
      { unfold flowerR. pose proof (COS_bound (6 * 0.5 * theta)) as [C1 C2].
        pose proof (Rabs_pos (cos (6 * 0.5 * theta))).
        pose proof (Rabs_le (cos (6 * 0.5 * theta)) 1 (conj C1 C2)). lra. }
      set (r := u1 * flowerR + 2).
      assert (Hrr : 2 <= r < 10) by (unfold r; nra).
      pose proof (sin2_cos2 theta) as T. unfold Rsqr in T.
      pose proof (SIN_bound r) as S.
      set (zz := sin r * 2 + (u2 - 0.5) * 2).
      assert (Z : -3 <= zz <= 3) by (unfold zz; lra).
      replace (r * cos theta * (r * cos theta) + r * sin theta * (r * sin theta))
        with (r * r * (sin theta * sin theta + cos theta * cos theta)) by ring.
      rewrite T. nra.
    + (* fish *)
      set (fishL := (ratio - 0.5) * 15).
      assert (L : -7.5 <= fishL < 7.5) by (unfold fishL; lra).
      pose proof (COS_bound (fishL * 0.2)) as C.
      destruct (Rltb (Rabs fishL) 7) eqn:B.
      * apply wp_bind, wp_random; [exact Hg |]. intros u1 U1 g1 Hg1.
        apply wp_bind, wp_random; [exact Hg1 |]. intros rad U2 g2 Hg2.
        apply wp_ret. split; [| exact Hg2].
        unfold THREE.lengthSq. simpl.
        pose proof (sin2_cos2 (u1 * PI * 2)) as T. unfold Rsqr in T.
        set (c := cos (fishL * 0.2)) in *.
        set (sa := sin (u1 * PI * 2)) in *. set (ca := cos (u1 * PI * 2)) in *.
        assert (X : fishL * fishL <= 56.25) by nra.
        assert (C2 : c * c <= 1) by nra.
        assert (R2 : rad * rad <= 1) by nra.
        assert (CR : c * c * (rad * rad) <= 1) by nra.
        assert (Y : ca * (c * 5) * rad * (ca * (c * 5) * rad)
                    + sa * (c * 4) * rad * (sa * (c * 4) * rad)
                    <= 25 * (c * c * (rad * rad)) * (sa * sa + ca * ca)).
        { assert (0 <= c * c * (rad * rad) * (sa * sa)) by
            (apply Rmult_le_pos; [apply Rmult_le_pos |]; nra).
          nra. }
        rewrite T in Y. nra.
      * apply wp_bind, wp_random; [exact Hg |]. intros u1 U1 g1 Hg1.
        apply wp_bind, wp_random; [exact Hg1 |]. intros u2 U2 g2 Hg2.
        apply wp_ret. split; [| exact Hg2].
        unfold THREE.lengthSq. simpl. nra.
    + (* star *)
      apply wp_bind, wp_random; [exact Hg |]. intros u1 U1 g1 Hg1.
      apply wp_bind, wp_pow_unit; [exact U1 | lra |]. intros pw W.
      cbv zeta.
      pose proof (spherical_lengthSq (pw * 12) phi theta) as N.
      destruct (Nat.eqb (i mod 20) 0).
      * apply wp_ret. split; [| exact Hg1].
        unfold THREE.lengthSq, THREE.multiplyScalar, THREE.setFromSphericalCoords in *.
        simpl in *. nra.
      * apply wp_ret. split; [| exact Hg1]. rewrite N. nra.
    + (* sphere and default *)
      apply wp_ret. split; [| exact Hg]. rewrite spherical_lengthSq. lra.
Qed.

(** C1. For every index [0 <= i < count], each of the five shape
    literals and every sequence of draws of the random source,
    [getTargetPosition(i, count, shape)] runs to its end without
    producing a non-finite number and returns a vector of Euclidean
    length strictly below 20. *)
Theorem target_within_20 :
  forall (i count : nat) (shape : string) (g : Rng),
    (i < count)%nat ->
    shape = "sphere"%string \/ shape = "cat"%string \/ shape = "flower"%string
    \/ shape = "fish"%string \/ shape = "star"%string ->
    RngOk g ->
    exists (v : THREE.Vector3) (g' : Rng),
      getTargetPosition i count shape g = Done v g' /\ THREE.length v < 20.
Proof.
  intros i count shape g Hi _ Hg.
  destruct (wp_Done _ _ _ (target_bounded i count shape g Hi Hg))
    as (v & g' & E & B & _).
  exists v, g'. split; [exact E |].
  unfold THREE.length. rewrite <- (sqrt_square 20) by lra.
  apply sqrt_lt_1; [| lra | lra].
  unfold THREE.lengthSq. apply squares_nonneg.
Qed.

Lemma target_within_20_witness :
  exists (v : THREE.Vector3) (g' : Rng),
    getTargetPosition 0 4 "star" (mkRng (fun _ => 1 / 2) 0) = Done v g'
    /\ THREE.length v < 20.
Proof.
  apply (target_within_20 0 4 "star" (mkRng (fun _ => 1 / 2) 0)).
  - lia.
  - do 4 right. reflexivity.
  - intros n. simpl. lra.
Defined.

(** ** A particle at the pointer *)

(** At the pointer itself the distance is 0, the quotient [dist / 25]
    is taken all the same, and every force term carries a factor
    [dx], [dy] or [dz], all 0: only the cat's jitter is left. *)
Lemma handInteraction_at_pointer (shape : string) (handX handY : R)
      (particle : Particle) (g : Rng) :
  RngOk g ->
  P.x particle = handX -> P.y particle = handY -> P.z particle = 0 ->
  exists (jitter : R) (g' : Rng),
    handInteraction shape handX handY particle g
    = Done (P.mk (P.t particle) (P.x particle) (P.y particle) (P.z particle)
                 (P.baseX particle) (P.baseY particle) (P.baseZ particle)
                 (P.vx particle + jitter) (P.vy particle) (P.vz particle)) g'
    /\ -0.25 <= jitter <= 0.25
    /\ (shape <> "cat"%string -> jitter = 0).
Proof.
  intros Hg Hx Hy Hz. destruct particle as [t x y z bx by' bz vx vy vz].
  simpl in Hx, Hy, Hz. subst x y z.
  unfold handInteraction, bind.
  replace ((handX - handX) * (handX - handX) + (handY - handY) * (handY - handY)
           + (0 - 0) * (0 - 0)) with 0 by ring.
  rewrite sqrt_ok by lra. rewrite sqrt_0. cbv zeta.
  rewrite (Rltb_true 0 25) by lra. rewrite divide_ok by lra.
  rewrite (Rltb_true 0 8) by lra. rewrite andb_true_r.
  destruct (String.eqb_spec shape "cat") as [C | C].
  - unfold Math.random, ret. simpl.
    exists ((draws g (cursor g) - 0.5) * 0.5), (mkRng (draws g) (S (cursor g))).
    pose proof (Hg (cursor g)) as U.
    split; [| split; [lra | intros N; contradiction]].
    f_equal. f_equal; lra.
  - exists 0, g. split; [| split; [lra | reflexivity]].
    destruct (String.eqb shape "flower"); unfold ret; simpl;
      f_equal; f_equal; lra.
Qed.

(** C4. For every shape and every particle state, when the pointer is
    detected and the particle sits exactly at the pointer's world
    position ([dist = 0]), the step of that particle runs to its end:
    no NaN and no infinity is produced in its velocity or position.
    The one quotient of the interaction, [dist / 25], has a constant
    divisor, so nothing is divided by zero; at [dist = 0] all force
    terms vanish and the velocity changes only by the cat's bounded
    jitter. *)
Theorem pointer_singularity_safe :
  forall (count : nat) (visual : VisualParams) (bass handX handY : R)
         (i : nat) (particle : Particle) (g : Rng),
    (i < count)%nat -> RngOk g ->
    P.x particle = handX -> P.y particle = handY -> P.z particle = 0 ->
    (exists (particle' : Particle) (g' : Rng),
        updateParticle count visual bass handX handY true i particle g
        = Done particle' g')
    /\ (forall g1 : Rng, RngOk g1 ->
        exists (jitter : R) (g' : Rng),
          handInteraction (shape visual) handX handY particle g1
          = Done (P.mk (P.t particle)
                       (P.x particle) (P.y particle) (P.z particle)
                       (P.baseX particle) (P.baseY particle) (P.baseZ particle)
                       (P.vx particle + jitter) (P.vy particle) (P.vz particle))
                 g'
          /\ -0.25 <= jitter <= 0.25
          /\ (shape visual <> "cat"%string -> jitter = 0)).
Proof.
  intros count visual bass handX handY i particle g Hi Hg Hx Hy Hz. split.
  - destruct (wp_Done _ _ _ (target_bounded i count (shape visual) g Hi Hg))
      as (target & g1 & Et & _).
    destruct (updateParticle_runs count visual bass handX handY true i
                                  particle g g1 target Et)
      as (particle' & g' & E & _).
    exists particle', g'. exact E.
  - intros g1 Hg1. apply handInteraction_at_pointer; assumption.
Qed.

Lemma pointer_singularity_safe_witness :
  exists (particle' : Particle) (g' : Rng),
    updateParticle 1 (mkVisualParams 1 1 1 [] "cat") 0 3 4 true 0
                   (P.mk 0 3 4 0 1 1 1 0 0 0) (mkRng (fun _ => 1 / 2) 0)
    = Done particle' g'.
Proof.
  apply (pointer_singularity_safe 1 (mkVisualParams 1 1 1 [] "cat") 0 3 4 0
           (P.mk 0 3 4 0 1 1 1 0 0 0) (mkRng (fun _ => 1 / 2) 0)).
  - lia.
  - intros n. simpl. lra.
  - reflexivity.
  - reflexivity.
  - reflexivity.
Defined.

(** ** Malformed parameters *)

Lemma safe_ret {A : Type} (a : A) : safe (ret a).
Proof. intros g. discriminate. Qed.

Lemma safe_bind {A B : Type} (m : Js A) (k : A -> Js B) :
  safe m -> (forall a : A, safe (k a)) -> safe (bind m k).
Proof.
  intros Hm Hk g. unfold bind. specialize (Hm g).
  destruct (m g) as [a g' | e]; [apply Hk |].
  destruct e; [discriminate | contradiction].
Qed.

Lemma safe_divide (a b : R) : safe (a // b).
Proof. intros g. unfold divide. destruct (Req_dec_T b 0); discriminate. Qed.

Lemma safe_sqrt (a : R) : safe (Math.sqrt a).
Proof. intros g. unfold Math.sqrt. destruct (Rlt_dec a 0); discriminate. Qed.

Lemma safe_acos (a : R) : safe (Math.acos a).
Proof.
  intros g. unfold Math.acos.
  destruct (Rle_dec (-1) a); [destruct (Rle_dec a 1) |]; discriminate.
Qed.

Lemma safe_pow (a b : R) : safe (Math.pow a b).
Proof.
  intros g. unfold Math.pow.
  destruct (Rlt_dec a 0); [| destruct (Req_dec_T a 0)]; discriminate.
Qed.

Lemma safe_random : safe Math.random.
Proof. intros g. discriminate. Qed.

Create HintDb js_safe.
#[local] Hint Resolve safe_ret safe_divide safe_sqrt safe_acos safe_pow
  safe_random : js_safe.

(** Walks down a run: sequences, branches and record patterns. *)
Ltac safe_run :=
  repeat first
    [ progress auto with js_safe
    | apply safe_bind; [| intros ? ]
    | match goal with
      | |- safe (if ?c then _ else _) => destruct c
      | |- safe (let '(P.mk _ _ _ _ _ _ _ _ _ _) := ?p in _) => destruct p
      end
    | progress cbv zeta ].

Lemma getTargetPosition_safe (i count : nat) (shape : string) :
  safe (getTargetPosition i count shape).
Proof. unfold getTargetPosition. safe_run. Qed.

Lemma handInteraction_safe (shape : string) (handX handY : R) (particle : Particle) :
  safe (handInteraction shape handX handY particle).
Proof. unfold handInteraction. safe_run. Qed.

Lemma updateParticle_safe (count : nat) (visual : VisualParams) (bass : R)
      (handX handY : R) (isHandActive : bool) (i : nat) (particle : Particle) :
  safe (updateParticle count visual bass handX handY isHandActive i particle).
Proof.
  unfold updateParticle. safe_run; apply handInteraction_safe.
Qed.

Lemma forEach_safe (f : nat -> Particle -> Js Particle) :
  (forall i p, safe (f i p)) ->
  forall (array : list Particle) (i : nat), safe (forEach f i array).
Proof.
  intros Hf. induction array as [| p rest IH]; intros i; simpl.
  - apply safe_ret.
  - apply safe_bind; [apply Hf | intros p'].
    apply safe_bind; [apply IH | intros rest']. apply safe_ret.
Qed.

Lemma useFrame_safe (count : nat) (meshCurrent : bool) (songData : option SongData)
      (handPosition : HandPosition.t) (freqData : list nat) (particles : list Particle) :
  safe (useFrame count meshCurrent songData handPosition freqData particles).
Proof.
  unfold useFrame. destruct songData as [data |]; [| apply safe_ret].
  destruct (negb meshCurrent); [apply safe_ret |].
  safe_run. apply forEach_safe. intros i p. apply updateParticle_safe.
Qed.

(** The step runs to its end on any store that fits the particle
    count, whatever the numeric parameters are. *)
Lemma updateParticle_total (count : nat) (visual : VisualParams) (bass : R)
      (handX handY : R) (isHandActive : bool) (i : nat) (particle : Particle)
      (g : Rng) :
  (i < count)%nat -> RngOk g ->
  exists (particle' : Particle) (g' : Rng),
    updateParticle count visual bass handX handY isHandActive i particle g
    = Done particle' g'
    /\ RngOk g'.
Proof.
  intros Hi Hg.
  destruct (wp_Done _ _ _ (target_bounded i count (shape visual) g Hi Hg))
    as (target & g1 & Et & _ & Hg1).
  destruct particle as [t x y z bx by' bz vx vy vz].
  unfold updateParticle, bind. rewrite Et. cbv zeta.
  destruct isHandActive.
  - match goal with
    | |- context [handInteraction ?s ?hx ?hy ?p ?gg] =>
        destruct (handInteraction_runs s hx hy p gg)
          as (vx' & vy' & vz' & g' & E & Hg')
    end.
    rewrite E. do 2 eexists. split; [reflexivity |].
    destruct Hg' as [-> | ->]; [exact Hg1 | apply RngOk_advance; exact Hg1].
  - do 2 eexists. split; [reflexivity | exact Hg1].
Qed.

Lemma forEach_total (count : nat) (f : nat -> Particle -> Js Particle) :
  (forall i p g, (i < count)%nat -> RngOk g ->
                 exists p' g', f i p g = Done p' g' /\ RngOk g') ->
  forall (array : list Particle) (i : nat) (g : Rng),
    (i + length array <= count)%nat -> RngOk g ->
    exists (array' : list Particle) (g' : Rng),
      forEach f i array g = Done array' g'
      /\ RngOk g' /\ length array' = length array.
Proof.
  intros Hf. induction array as [| p rest IH]; intros i g Hlen Hg.
  - exists [], g. split; [reflexivity | split; [exact Hg | reflexivity]].
  - simpl in Hlen. destruct (Hf i p g) as (p' & g1 & E1 & Hg1); [lia | exact Hg |].
    destruct (IH (S i) g1) as (rest' & g2 & E2 & Hg2 & L); [lia | exact Hg1 |].
    exists (p' :: rest'), g2. simpl forEach. unfold bind. rewrite E1, E2.
    split; [reflexivity | split; [exact Hg2 | simpl; congruence]].
Qed.

Lemma useFrame_total (count : nat) (meshCurrent : bool) (songData : option SongData)
      (handPosition : HandPosition.t) (freqData : list nat)
      (particles : list Particle) (g : Rng) :
  (length particles <= count)%nat -> RngOk g ->
  exists (particles' : list Particle) (g' : Rng),
    useFrame count meshCurrent songData handPosition freqData particles g
    = Done particles' g'
    /\ RngOk g' /\ length particles' = length particles.
Proof.
  intros Hlen Hg. unfold useFrame.
  destruct songData as [data |]; [| exists particles, g; auto].
  destruct (negb meshCurrent); [exists particles, g; auto |].
  unfold bind. rewrite !divide_ok by lra.
  apply (forEach_total count); [| simpl; lia | exact Hg].
  intros i p g0 Hi Hg0. apply updateParticle_total; assumption.
Qed.

Lemma forEach_related (f : nat -> Particle -> Js Particle)
      (Rel : Particle -> Particle -> Prop) :
  (forall i p g p' g', f i p g = Done p' g' -> Rel p p') ->
  forall (array : list Particle) (i : nat) (g : Rng)
         (array' : list Particle) (g' : Rng),
    forEach f i array g = Done array' g' -> Forall2 Rel array array'.
Proof.
  intros Hf. induction array as [| p rest IH]; intros i g array' g' E.
  - simpl in E. unfold ret in E. apply Done_value in E. subst. constructor.
  - simpl in E. unfold bind in E.
    destruct (f i p g) as [p' g1 |] eqn:E1; [| discriminate E].
    destruct (forEach f (S i) rest g1) as [rest' g2 |] eqn:E2; [| discriminate E].
    unfold ret in E. apply Done_value in E. subst array'.
    constructor; [exact (Hf _ _ _ _ _ E1) | exact (IH _ _ _ _ E2)].
Qed.

Lemma updateParticle_phase (count : nat) (visual : VisualParams) (bass : R)
      (handX handY : R) (isHandActive : bool) (i : nat)
      (particle particle' : Particle) (g g' : Rng) :
  updateParticle count visual bass handX handY isHandActive i particle g
  = Done particle' g' ->
  P.t particle' = P.t particle + speed visual * (0.005 + bass * 0.05).
Proof.
  intros E.
  destruct (getTargetPosition i count (shape visual) g) as [target g1 |] eqn:Et.
  - destruct (updateParticle_runs count visual bass handX handY isHandActive i
                                  particle g g1 target Et)
      as (q & gq & Eq & _ & _ & _ & Tq).
    rewrite Eq in E. apply Done_value in E. subst q. exact Tq.
  - unfold updateParticle, bind in E. rewrite Et in E. discriminate E.
Qed.

Lemma useFrame_phase (count : nat) (data : SongData)
      (handPosition : HandPosition.t) (freqData : list nat)
      (particles particles' : list Particle) (g g' : Rng) :
  useFrame count true (Some data) handPosition freqData particles g
  = Done particles' g' ->
  Forall2 (fun p p' =>
             P.t p' = P.t p + speed (visualParams data)
                              * (0.005 + bassOf freqData * 0.05))
          particles particles'.
Proof.
  intros E. unfold useFrame in E.
  change (negb true) with false in E. cbv beta iota in E.
  unfold bind in E. rewrite !divide_ok in E by lra.
  apply (forEach_related _ _ (fun i p g p' g' H => updateParticle_phase _ _ _ _ _ _ i p p' g g' H)
                         _ _ _ _ _ E).
Qed.

Lemma getTargetPosition_default (i count : nat) (shape : string) (g : Rng) :
  ~ randomShape shape ->
  getTargetPosition i count shape g = getTargetPosition i count "sphere" g.
Proof.
  intros N. destruct (default_branch shape N) as (E1 & E2 & E3 & E4).
  unfold getTargetPosition. rewrite E1, E2, E3, E4. reflexivity.
Qed.

Lemma handInteraction_default (shape : string) (handX handY : R)
      (particle : Particle) (g : Rng) :
  ~ randomShape shape ->
  handInteraction shape handX handY particle g
  = handInteraction "sphere" handX handY particle g.
Proof.
  intros N. destruct (default_branch shape N) as (E1 & E2 & _ & _).
  unfold handInteraction. rewrite E1, E2. reflexivity.
Qed.

Lemma updateParticle_default (count : nat) (visual : VisualParams) (bass : R)
      (handX handY : R) (isHandActive : bool) (i : nat)
      (particle : Particle) (g : Rng) :
  ~ randomShape (shape visual) ->
  updateParticle count visual bass handX handY isHandActive i particle g
  = updateParticle count (withShape visual "sphere") bass handX handY
                   isHandActive i particle g.
Proof.
  intros N. destruct (default_branch _ N) as (E1 & _ & E3 & _).
  unfold updateParticle, bind. cbn [shape speed chaos withShape].
  rewrite (getTargetPosition_default i count _ g N).
  destruct (getTargetPosition i count "sphere" g) as [target g1 |]; [| reflexivity].
  destruct particle as [t x y z bx by' bz vx vy vz].
  rewrite E1, E3.
  change (String.eqb "sphere" "cat") with false.
  change (String.eqb "sphere" "fish") with false. cbv iota.
  destruct isHandActive; [| reflexivity].
  rewrite (handInteraction_default _ _ _ _ _ N). reflexivity.
Qed.

Lemma forEach_ext (f f' : nat -> Particle -> Js Particle) :
  (forall i p g, f i p g = f' i p g) ->
  forall (array : list Particle) (i : nat) (g : Rng),
    forEach f i array g = forEach f' i array g.
Proof.
  intros H. induction array as [| p rest IH]; intros i g; [reflexivity |].
  simpl. unfold bind. rewrite H.
  destruct (f' i p g) as [p' g1 |]; [| reflexivity].
  rewrite IH. reflexivity.
Qed.

Lemma useFrame_default (count : nat) (meshCurrent : bool) (data : SongData)
      (handPosition : HandPosition.t) (freqData : list nat)
      (particles : list Particle) (g : Rng) :
  ~ randomShape (shape (visualParams data)) ->
  useFrame count meshCurrent (Some data) handPosition freqData particles g
  = useFrame count meshCurrent
             (Some (withVisual data (withShape (visualParams data) "sphere")))
             handPosition freqData particles g.
Proof.
  intros N. unfold useFrame. destruct (negb meshCurrent); [reflexivity |].
  unfold bind. rewrite !divide_ok by lra.
  apply forEach_ext. intros i p g0. simpl.
  apply updateParticle_default. exact N.
Qed.

(** C5 as written fails: the step does not clamp.  With [speed = 5]
    the phase of the particle advances by [5 * 0.005], not by the
    [2 * 0.005] of the clamped bundle, so the two frames differ. *)
Lemma clamping_counterexample :
  useFrame 1 true (Some hastySong) (HandPosition.mk 0 0 false) []
           [P.mk 0 0 0 0 0 0 0 0 0 0] (mkRng (fun _ => 0) 0)
  <> useFrame 1 true
              (Some (withVisual hastySong (sanitized (visualParams hastySong))))
              (HandPosition.mk 0 0 false) []
              [P.mk 0 0 0 0 0 0 0 0 0 0] (mkRng (fun _ => 0) 0).
Proof.
  intros E.
  destruct (useFrame_total 1 true (Some hastySong) (HandPosition.mk 0 0 false) []
              [P.mk 0 0 0 0 0 0 0 0 0 0] (mkRng (fun _ => 0) 0))
    as (ps & g1 & E1 & _ & _); [simpl; lia | intros n; simpl; lra |].
  rewrite E1 in E. symmetry in E.
  pose proof (useFrame_phase _ _ _ _ _ _ _ _ E1) as F1.
  pose proof (useFrame_phase _ _ _ _ _ _ _ _ E) as F2.
  inversion F1 as [| p0 p1 l0 l1 T1 _ ]. subst.
  inversion F2 as [| p0' p1' l0' l1' T2 _ ]. subst.
  rewrite T1 in T2. simpl in T2.
  assert (B : bassOf [] = 0).
  { unfold bassOf, sumSlice. simpl. lra. }
  rewrite B in T2.
  assert (C : clamp 0.1 2 5 = 2).
  { unfold clamp, Rmin, Rmax.
    destruct (Rle_dec 2 5) as [_ | N]; [| lra].
    destruct (Rle_dec 0.1 2) as [_ | N]; lra. }
  rewrite C in T2. lra.
Qed.

(** Whatever the bundle, a callback that returns has morphed,
    advanced and integrated the particle with the numbers of the bundle
    as they are. *)
Lemma updateParticle_as_given (count : nat) (visual : VisualParams) (bass : R)
      (handX handY : R) (isHandActive : bool) (i : nat)
      (particle particle' : Particle) (g g' : Rng) :
  updateParticle count visual bass handX handY isHandActive i particle g
  = Done particle' g' ->
  steppedAsGiven visual bass handX handY isHandActive particle particle'.
Proof.
  intros E.
  destruct (getTargetPosition i count (shape visual) g) as [target g1 |] eqn:Et.
  - rewrite (updateParticle_phases _ _ _ _ _ _ _ _ _ _ _ Et) in E.
    unfold bind in E.
    destruct ((if isHandActive
               then handInteraction (shape visual) handX handY
                                    (morphed visual bass target particle)
               else ret (morphed visual bass target particle)) g1)
      as [touched g2 |] eqn:Eh; [| discriminate E].
    unfold ret in E. apply Done_value in E.
    exists target, g1, touched, g2. split; [exact Eh | symmetry; exact E].
  - unfold updateParticle, bind in E. rewrite Et in E. discriminate E.
Qed.

Lemma useFrame_as_given (count : nat) (data : SongData)
      (handPosition : HandPosition.t) (freqData : list nat)
      (particles particles' : list Particle) (g g' : Rng) :
  useFrame count true (Some data) handPosition freqData particles g
  = Done particles' g' ->
  Forall2 (steppedAsGiven (visualParams data) (bassOf freqData)
                          (HandPosition.x handPosition * 30)
                          (HandPosition.y handPosition * 20)
                          (HandPosition.isDetected handPosition))
          particles particles'.
Proof.
  intros E. unfold useFrame in E.
  change (negb true) with false in E. cbv beta iota in E.
  unfold bind in E. rewrite !divide_ok in E by lra.
  apply (forEach_related _ _
           (fun i p g p' g' H =>
              updateParticle_as_given _ _ _ _ _ _ i p p' g g' H)
           _ _ _ _ _ E).
Qed.

(** The scale of every instance carries the [size] of the bundle as a
    plain factor. *)
Lemma instanceScales_as_given (count : nat) (data : SongData)
      (handPosition : HandPosition.t) (freqData : list nat)
      (particles particles' : list Particle) (g g' : Rng) :
  useFrame count true (Some data) handPosition freqData particles g
  = Done particles' g' ->
  instanceScales count true (Some data) handPosition freqData particles g
  = Done (map (fun p' =>
                 size (visualParams data)
                 * (1 + bassOf freqData * 3
                    + trebleOf freqData * ((sin (P.t p' * 10) + 1) * 0.5) * 2)
                 * 0.2)
              particles')
         g'.
Proof.
  intros E. unfold instanceScales.
  change (negb true) with false. cbv beta iota.
  unfold bind at 1 2 3 4. rewrite !divide_ok by lra.
  unfold bind. rewrite E. reflexivity.
Qed.

(** C5, as amended.  When [VisualParams] is malformed the step uses
    the numeric fields as they are, without clamping: the phase
    advances by [speed * (0.005 + bass * 0.05)] for the [speed] given,
    the noise that displaces the target has the amplitude
    [chaos * 5] for the [chaos] given (halved for the cat, raised by
    half for the fish), and every instance is scaled by the [size]
    given times [(1 + 3 bass + 2 treble sFactor) * 0.2].
    A shape that is none of the five literals is treated exactly as
    sphere, through the default branch of the switch.  The step never
    throws, and on a store that fits the particle count it runs to its
    end whatever the numbers are. *)
Theorem malformed_params :
  forall (count : nat) (meshCurrent : bool) (data : SongData)
         (handPosition : HandPosition.t) (freqData : list nat)
         (particles : list Particle) (g : Rng),
    (isShapeLiteral (shape (visualParams data)) = false ->
     useFrame count meshCurrent (Some data) handPosition freqData particles g
     = useFrame count meshCurrent
                (Some (withVisual data (withShape (visualParams data) "sphere")))
                handPosition freqData particles g)
    /\ useFrame count meshCurrent (Some data) handPosition freqData particles g
       <> Abort TypeError
    /\ ((length particles <= count)%nat -> RngOk g ->
        exists (particles' : list Particle) (g' : Rng),
          useFrame count meshCurrent (Some data) handPosition freqData particles g
          = Done particles' g')
    /\ (forall (particles' : list Particle) (g' : Rng),
          useFrame count true (Some data) handPosition freqData particles g
          = Done particles' g' ->
          Forall2 (fun p p' =>
                     P.t p' = P.t p + speed (visualParams data)
                                      * (0.005 + bassOf freqData * 0.05))
                  particles particles'
          /\ Forall2 (steppedAsGiven (visualParams data) (bassOf freqData)
                                     (HandPosition.x handPosition * 30)
                                     (HandPosition.y handPosition * 20)
                                     (HandPosition.isDetected handPosition))
                     particles particles'
          /\ instanceScales count true (Some data) handPosition freqData
                            particles g
             = Done (map (fun p' =>
                            size (visualParams data)
                            * (1 + bassOf freqData * 3
                               + trebleOf freqData
                                 * ((sin (P.t p' * 10) + 1) * 0.5) * 2)
                            * 0.2)
                         particles')
                    g').
Proof.
  intros count meshCurrent data handPosition freqData particles g.
  split; [| split; [| split]].
  - intros U. apply useFrame_default. unfold isShapeLiteral in U.
    apply orb_false_elim in U as [U Estar].
    apply orb_false_elim in U as [U Efish].
    apply orb_false_elim in U as [U Eflower].
    apply orb_false_elim in U as [_ Ecat].
    apply String.eqb_neq in Estar, Efish, Eflower, Ecat.
    unfold randomShape. tauto.
  - apply useFrame_safe.
  - intros Hlen Hg.
    destruct (useFrame_total count meshCurrent (Some data) handPosition freqData
                             particles g Hlen Hg) as (ps & g' & E & _).
    exists ps, g'. exact E.
  - intros particles' g' E. split; [| split].
    + exact (useFrame_phase _ _ _ _ _ _ _ _ E).
    + exact (useFrame_as_given _ _ _ _ _ _ _ _ E).
    + exact (instanceScales_as_given _ _ _ _ _ _ _ _ E).
Qed.

Lemma malformed_params_witness :
  useFrame 1 true
           (Some (mkSongData "" "" "" 90 "C" "major"
                    (mkVisualParams 3 5 7 [] "cube")))
           (HandPosition.mk 0 0 true) [] [P.mk 0 0 0 0 0 0 0 0 0 0]
           (mkRng (fun _ => 0) 0)
  = useFrame 1 true
             (Some (mkSongData "" "" "" 90 "C" "major"
                      (mkVisualParams 3 5 7 [] "sphere")))
             (HandPosition.mk 0 0 true) [] [P.mk 0 0 0 0 0 0 0 0 0 0]
             (mkRng (fun _ => 0) 0).
Proof.
  apply (malformed_params 1 true
           (mkSongData "" "" "" 90 "C" "major" (mkVisualParams 3 5 7 [] "cube"))
           (HandPosition.mk 0 0 true) [] [P.mk 0 0 0 0 0 0 0 0 0 0]
           (mkRng (fun _ => 0) 0)).
  reflexivity.
Defined.

(** ** The idle sphere *)

Lemma updateParticle_calm (count : nat) (visual : VisualParams) (bass : R)
      (handX handY : R) (i : nat) (p : Particle) (g : Rng) :
  (i < count)%nat ->
  shape visual = "sphere"%string -> chaos visual = 0 -> speed visual = 0 ->
  updateParticle count visual bass handX handY false i p g
  = Done (calmStep (sphereTarget i count) p) g.
Proof.
  intros Hi Hs Hc Hv. destruct p as [t x y z bx by' bz vx vy vz].
  unfold updateParticle, bind. rewrite Hs, Hc, Hv.
  rewrite (sphere_target_at i count "sphere" g Hi)
    by (unfold randomShape; intros [E | [E | [E | E]]]; discriminate E).
  fold (sphereTarget i count).
  change (String.eqb "sphere" "cat") with false.
  change (String.eqb "sphere" "fish") with false.
  cbv beta iota zeta. unfold ret, calmStep. simpl.
  f_equal. f_equal; lra.
Qed.

Lemma forEach_calm (count : nat) (visual : VisualParams) (bass : R)
      (handX handY : R) :
  shape visual = "sphere"%string -> chaos visual = 0 -> speed visual = 0 ->
  forall (array : list Particle) (i : nat) (g : Rng),
    (i + length array <= count)%nat ->
    forEach (updateParticle count visual bass handX handY false) i array g
    = Done (imap (fun j p => calmStep (sphereTarget (i + j) count) p) array) g.
Proof.
  intros Hs Hc Hv. induction array as [| p rest IH]; intros i g Hlen.
  - reflexivity.
  - simpl in Hlen. simpl forEach. unfold bind.
    rewrite updateParticle_calm by (assumption || lia).
    rewrite IH by lia. unfold ret. simpl imap.
    replace (i + 0)%nat with i by lia.
    f_equal. f_equal. apply imap_ext. intros j q _. simpl.
    replace (i + S j)%nat with (S i + j)%nat by lia. reflexivity.
Qed.

Lemma useFrame_calm (count : nat) (data : SongData)
      (handPosition : HandPosition.t) (freqData : list nat)
      (array : list Particle) (g : Rng) :
  shape (visualParams data) = "sphere"%string ->
  chaos (visualParams data) = 0 -> speed (visualParams data) = 0 ->
  HandPosition.isDetected handPosition = false ->
  (length array <= count)%nat ->
  useFrame count true (Some data) handPosition freqData array g
  = Done (imap (fun j p => calmStep (sphereTarget j count) p) array) g.
Proof.
  intros Hs Hc Hv Hd Hlen. unfold useFrame.
  change (negb true) with false. cbv beta iota.
  unfold bind. rewrite !divide_ok by lra. rewrite Hd.
  rewrite forEach_calm by (assumption || (simpl; lia)). reflexivity.
Qed.

Lemma frames_calm (count : nat) (data : SongData)
      (inputs : nat -> HandPosition.t * list nat)
      (array : list Particle) (g : Rng) :
  shape (visualParams data) = "sphere"%string ->
  chaos (visualParams data) = 0 -> speed (visualParams data) = 0 ->
  (forall k, HandPosition.isDetected (inputs k).1 = false) ->
  (length array <= count)%nat ->
  forall n : nat,
    frames count (Some data) inputs n array g
    = Done (imap (fun j p => Nat.iter n (calmStep (sphereTarget j count)) p)
                 array) g.
Proof.
  intros Hs Hc Hv Hd Hlen. induction n as [| n IH].
  - simpl. unfold ret. f_equal. symmetry.
    rewrite <- (list_fmap_id array) at 2.
    rewrite <- imap_const. reflexivity.
  - cbn [frames]. unfold bind. rewrite IH.
    rewrite useFrame_calm; try assumption.
    + f_equal. apply list_eq. intros j.
      rewrite !list_lookup_imap.
      destruct (array !! j) as [p |]; reflexivity.
    + apply Hd.
    + rewrite length_imap. exact Hlen.
Qed.

Lemma newParticles_initial (n : nat) (g : Rng) :
  RngOk g ->
  wp (newParticles n) g
     (fun array g' => length array = n /\ Forall initial array /\ RngOk g').
Proof.
  revert g. induction n as [| n IH]; intros g Hg.
  - apply wp_ret. split; [reflexivity | split; [constructor | exact Hg]].
  - cbn [newParticles].
    apply wp_bind, wp_random; [exact Hg |]. intros r0 U0 g0 Hg0.
    apply wp_bind, wp_random; [exact Hg0 |]. intros r1 U1 g1 Hg1.
    apply wp_bind, wp_random; [exact Hg1 |]. intros r2 U2 g2 Hg2.
    apply wp_bind, wp_random; [exact Hg2 |]. intros r3 U3 g3 Hg3.
    apply wp_bind, wp_random; [exact Hg3 |]. intros r4 U4 g4 Hg4.
    apply wp_bind, wp_random; [exact Hg4 |]. intros r5 U5 g5 Hg5.
    apply wp_bind, wp_random; [exact Hg5 |]. intros r6 U6 g6 Hg6.
    cbv zeta. apply wp_bind.
    eapply wp_mono; [| apply (IH g6 Hg6)].
    intros temp g' (L & F & Hg'). apply wp_ret.
    split; [simpl; congruence | split; [| exact Hg']].
    constructor; [| exact F].
    unfold initial. simpl. repeat split; lra.
Qed.

(** *** One axis of the idle dynamics: a linear map *)

Lemma combine_step (k : nat) (c1 c2 c3 : Z * Z * Z) (s : R * R * R) :
  axisStep (combine k c1 c2 c3 s)
  = combine (S k) (scaledStep c1) (scaledStep c2) (scaledStep c3) s.
Proof.
  destruct s as [[e v] d].
  destruct c1 as [[a1 b1] d1], c2 as [[a2 b2] d2], c3 as [[a3 b3] d3].
  assert (Hk : 10000 ^ k <> 0) by (apply pow_nonzero; lra).
  unfold combine, axisStep, scaledStep.
  rewrite !plus_IZR, !mult_IZR. simpl pow.
  unfold Rdiv. rewrite Rinv_mult.
  f_equal; [f_equal |]; lra.
Qed.

Lemma axis_iter_combine (k : nat) (s : R * R * R) :
  Nat.iter k axisStep s
  = combine k (Nat.iter k scaledStep (1, 0, 0)%Z)
              (Nat.iter k scaledStep (0, 1, 0)%Z)
              (Nat.iter k scaledStep (0, 0, 1)%Z) s.
Proof.
  induction k as [| k IH].
  - destruct s as [[e v] d]. simpl. f_equal; [f_equal |]; lra.
  - cbn [Nat.iter nat_rect]. 
    change (nat_rect _ ?x (fun _ => ?f) k) with (Nat.iter k f x).
    rewrite IH. apply combine_step.
Qed.

(** A hundred idle steps shrink every row sum below 0.11. *)
Lemma block_rows :
  rowsBelow (Nat.iter 100 scaledStep (1, 0, 0)%Z)
            (Nat.iter 100 scaledStep (0, 1, 0)%Z)
            (Nat.iter 100 scaledStep (0, 0, 1)%Z)
            (10000 ^ Z.of_nat 100) = true.
Proof. vm_compute. reflexivity. Qed.

Lemma row_bound (a1 a2 a3 : Z) (D e v d B : R) :
  0 < D ->
  (IZR (Z.abs a1) + IZR (Z.abs a2) + IZR (Z.abs a3)) * 100 <= 11 * D ->
  Rabs e <= B -> Rabs v <= B -> Rabs d <= B ->
  Rabs ((IZR a1 * e + IZR a2 * v + IZR a3 * d) / D) <= 0.11 * B.
Proof.
  intros HD HS He Hv Hd.
  assert (HB : 0 <= B) by (pose proof (Rabs_pos e); lra).
  assert (T : forall (a : Z) (u : R), Rabs u <= B ->
                Rabs (IZR a * u) <= IZR (Z.abs a) * B).
  { intros a u Hu. rewrite Rabs_mult, abs_IZR.
    apply Rmult_le_compat_l; [apply Rabs_pos | exact Hu]. }
  pose proof (T a1 e He) as T1. pose proof (T a2 v Hv) as T2.
  pose proof (T a3 d Hd) as T3.
  pose proof (Rabs_triang (IZR a1 * e + IZR a2 * v) (IZR a3 * d)) as R1.
  pose proof (Rabs_triang (IZR a1 * e) (IZR a2 * v)) as R2.
  set (num := IZR a1 * e + IZR a2 * v + IZR a3 * d) in *.
  assert (N : Rabs num <= (IZR (Z.abs a1) + IZR (Z.abs a2) + IZR (Z.abs a3)) * B)
    by lra.
  set (S := IZR (Z.abs a1) + IZR (Z.abs a2) + IZR (Z.abs a3)) in *.
  unfold Rdiv. rewrite Rabs_mult, (Rabs_pos_eq (/ D))
    by (left; apply Rinv_0_lt_compat; exact HD).
  apply (Rmult_le_reg_r D); [exact HD |].
  rewrite Rmult_assoc, Rinv_l, Rmult_1_r by lra.
  assert (P : 0 <= (11 * D - S * 100) * B) by (apply Rmult_le_pos; lra).
  lra.
Qed.

Lemma block_contracts (B : R) (s : R * R * R) :
  within B s -> within (0.11 * B) (Nat.iter 100 axisStep s).
Proof.
  intros W. rewrite axis_iter_combine. pose proof block_rows as H.
  destruct (Nat.iter 100 scaledStep (1, 0, 0)%Z) as [[a1 b1] d1].
  destruct (Nat.iter 100 scaledStep (0, 1, 0)%Z) as [[a2 b2] d2].
  destruct (Nat.iter 100 scaledStep (0, 0, 1)%Z) as [[a3 b3] d3].
  unfold rowsBelow in H.
  apply andb_prop in H as [H Hd]. apply andb_prop in H as [Ha Hb].
  apply Z.leb_le, IZR_le in Ha, Hb, Hd.
  rewrite mult_IZR, !plus_IZR, mult_IZR, <- pow_IZR in Ha, Hb, Hd.
  destruct s as [[e v] d]. destruct W as (We & Wv & Wd).
  assert (HD : 0 < 10000 ^ 100) by (apply pow_lt; lra).
  unfold combine, within.
  split; [| split]; apply row_bound; assumption.
Qed.

Lemma iter_500 {A : Type} (f : A -> A) (a : A) :
  Nat.iter 500 f a
  = Nat.iter 100 f (Nat.iter 100 f (Nat.iter 100 f
      (Nat.iter 100 f (Nat.iter 100 f a)))).
Proof.
  change 500%nat with (100 + (100 + (100 + (100 + 100))))%nat.
  rewrite !Nat.iter_add. reflexivity.
Qed.

Lemma axis_settles (s : R * R * R) :
  within 35 s -> within 0.001 (Nat.iter 500 axisStep s).
Proof.
  intros W. rewrite iter_500.
  do 5 apply block_contracts in W.
  destruct (Nat.iter 100 axisStep _) as [[e v] d].
  unfold within in *. lra.
Qed.

Lemma calmStep_axes (T : THREE.Vector3) (p : Particle) :
  axisX T (calmStep T p) = axisStep (axisX T p)
  /\ axisY T (calmStep T p) = axisStep (axisY T p)
  /\ axisZ T (calmStep T p) = axisStep (axisZ T p).
Proof.
  destruct p as [t x y z bx by' bz vx vy vz].
  unfold axisX, axisY, axisZ, calmStep, axisStep. simpl.
  repeat split; (f_equal; [f_equal |]); lra.
Qed.

Lemma calm_iter_axes (T : THREE.Vector3) (k : nat) (p : Particle) :
  axisX T (Nat.iter k (calmStep T) p) = Nat.iter k axisStep (axisX T p)
  /\ axisY T (Nat.iter k (calmStep T) p) = Nat.iter k axisStep (axisY T p)
  /\ axisZ T (Nat.iter k (calmStep T) p) = Nat.iter k axisStep (axisZ T p).
Proof.
  induction k as [| k (IX & IY & IZ)]; [repeat split |].
  change (Nat.iter (S k) (calmStep T) p) with (calmStep T (Nat.iter k (calmStep T) p)).
  change (Nat.iter (S k) axisStep) with (fun s => axisStep (Nat.iter k axisStep s)).
  cbv beta. rewrite <- IX, <- IY, <- IZ. apply calmStep_axes.
Qed.

Lemma Rabs_bound (x b : R) : Rabs x <= b -> - b <= x <= b.
Proof. unfold Rabs. destruct (Rcase_abs x); lra. Qed.

Lemma near_sphere (T : THREE.Vector3) (p : Particle) :
  THREE.lengthSq T = 100 ->
  Rabs (P.x p - THREE.x T) <= 0.001 ->
  Rabs (P.y p - THREE.y T) <= 0.001 ->
  Rabs (P.z p - THREE.z T) <= 0.001 ->
  9.8 <= distanceFromOrigin p <= 10.2.
Proof.
  intros HT Hx Hy Hz. unfold THREE.lengthSq in HT.
  apply Rabs_bound in Hx, Hy, Hz.
  set (ex := P.x p - THREE.x T) in *. set (ey := P.y p - THREE.y T) in *.
  set (ez := P.z p - THREE.z T) in *.
  assert (Tx : -10 <= THREE.x T <= 10) by nra.
  assert (Ty : -10 <= THREE.y T <= 10) by nra.
  assert (Tz : -10 <= THREE.z T <= 10) by nra.
  unfold distanceFromOrigin.
  replace (P.x p) with (THREE.x T + ex) by (unfold ex; ring).
  replace (P.y p) with (THREE.y T + ey) by (unfold ey; ring).
  replace (P.z p) with (THREE.z T + ez) by (unfold ez; ring).
  set (q := (THREE.x T + ex) * (THREE.x T + ex)
            + (THREE.y T + ey) * (THREE.y T + ey)
            + (THREE.z T + ez) * (THREE.z T + ez)).
  assert (Q : 9.8 * 9.8 <= q <= 10.2 * 10.2) by (unfold q; nra).
  split.
  - rewrite <- (sqrt_square 9.8) by lra. apply sqrt_le_1; nra.
  - rewrite <- (sqrt_square 10.2) by lra. apply sqrt_le_1; nra.
Qed.

Lemma settles_on_sphere (i count : nat) (p : Particle) :
  initial p ->
  9.8 <= distanceFromOrigin (Nat.iter 500 (calmStep (sphereTarget i count)) p)
      <= 10.2.
Proof.
  intros ((Px & Py & Pz) & (Bx & By & Bz) & (Vx & Vy & Vz)).
  set (T := sphereTarget i count).
  assert (HT : THREE.lengthSq T = 100).
  { unfold T, sphereTarget. rewrite spherical_lengthSq. lra. }
  assert (Tx : -10 <= THREE.x T <= 10) by (unfold THREE.lengthSq in HT; nra).
  assert (Ty : -10 <= THREE.y T <= 10) by (unfold THREE.lengthSq in HT; nra).
  assert (Tz : -10 <= THREE.z T <= 10) by (unfold THREE.lengthSq in HT; nra).
  destruct (calm_iter_axes T 500 p) as (EX & EY & EZ).
  assert (WX : within 35 (axisX T p)).
  { unfold within, axisX. rewrite Vx, Rabs_R0.
    repeat split; [apply Rabs_le | | apply Rabs_le]; lra. }
  assert (WY : within 35 (axisY T p)).
  { unfold within, axisY. rewrite Vy, Rabs_R0.
    repeat split; [apply Rabs_le | | apply Rabs_le]; lra. }
  assert (WZ : within 35 (axisZ T p)).
  { unfold within, axisZ. rewrite Vz, Rabs_R0.
    repeat split; [apply Rabs_le | | apply Rabs_le]; lra. }
  apply axis_settles in WX, WY, WZ.
  rewrite <- EX in WX. rewrite <- EY in WY. rewrite <- EZ in WZ.
  unfold within, axisX, axisY, axisZ in WX, WY, WZ.
  apply (near_sphere T); [exact HT | apply WX | apply WY | apply WZ].
Qed.

(** C2. From the initial store (positions in [-25, 25]^3, base
    positions in [-10, 10]^3, velocities zero, as the draws of the
    random source give them), 500 frames with [count = 100],
    [shape = 'sphere'], [chaos = 0], [speed = 0], the pointer not
    detected and [bass = treble = 0] run to their end and leave every
    particle at a distance from the origin within [9.8, 10.2]. *)
Theorem idle_sphere_settles :
  forall (data : SongData) (inputs : nat -> HandPosition.t * list nat)
         (g : Rng),
    RngOk g ->
    shape (visualParams data) = "sphere"%string ->
    chaos (visualParams data) = 0 ->
    speed (visualParams data) = 0 ->
    (forall k : nat, HandPosition.isDetected (inputs k).1 = false) ->
    (forall k : nat, bassOf (inputs k).2 = 0 /\ trebleOf (inputs k).2 = 0) ->
    exists (store : list Particle) (g' : Rng),
      (do initialStore <- particles 100 ;;
       frames 100 (Some data) inputs 500 initialStore) g
      = Done store g'
      /\ length store = 100%nat
      /\ Forall (fun p => 9.8 <= distanceFromOrigin p <= 10.2) store.
Proof.
  intros data inputs g Hg Hs Hc Hv Hd _.
  destruct (wp_Done _ _ _ (newParticles_initial 100 g Hg))
    as (store0 & g0 & E0 & L0 & I0 & _).
  exists (imap (fun j p => Nat.iter 500 (calmStep (sphereTarget j 100)) p) store0), g0.
  split; [| split].
  - unfold bind, particles. rewrite E0.
    apply frames_calm; try assumption. lia.
  - rewrite length_imap. exact L0.
  - apply Forall_lookup_2. intros j p E.
    rewrite list_lookup_imap in E.
    apply fmap_Some in E as (p0 & E0j & ->).
    apply settles_on_sphere.
    exact (Forall_lookup_1 _ _ _ _ I0 E0j).
Qed.

Lemma idle_sphere_settles_witness :
  exists (store : list Particle) (g' : Rng),
    (do initialStore <- particles 100 ;;
     frames 100
            (Some (mkSongData "" "" "" 90 "C" "major"
                     (mkVisualParams 0 0 1 ["#ffffff"%string] "sphere")))
            (fun _ => (HandPosition.mk 0 0 false, []))
            500 initialStore) (mkRng (fun _ => 1 / 2) 0)
    = Done store g'
    /\ length store = 100%nat
    /\ Forall (fun p => 9.8 <= distanceFromOrigin p <= 10.2) store.
Proof.
  apply (idle_sphere_settles
           (mkSongData "" "" "" 90 "C" "major"
              (mkVisualParams 0 0 1 ["#ffffff"%string] "sphere"))
           (fun _ => (HandPosition.mk 0 0 false, []))
           (mkRng (fun _ => 1 / 2) 0)).
  - intros n. simpl. lra.
  - reflexivity.
  - reflexivity.
  - reflexivity.
  - intros k. reflexivity.
  - intros k. unfold bassOf, trebleOf, sumSlice. simpl. lra.
Defined.

(** * Further properties of the scene *)

(** ** The noise field *)

(** X1. [simpleNoise] stays within [-1, 1] and vanishes at the origin. *)
Theorem simpleNoise_range :
  forall x y z : R,
    -1 <= simpleNoise x y z <= 1 /\ simpleNoise 0 0 0 = 0.
Proof.
  intros x y z. unfold simpleNoise.
  pose proof (SIN_bound x) as Sx. pose proof (COS_bound y) as Cy.
  pose proof (SIN_bound z) as Sz.
  split.
  - assert (A : -1 <= sin x * cos y <= 1) by nra. nra.
  - rewrite sin_0. ring.
Qed.

(** ** The store keeps its size *)

(** X2. Frames never change the number of particles: on a store that
    fits the particle count, any number of frames, with any parameter
    bundle (or none), pointer and audio bytes, runs to its end and
    leaves a store of the same length. *)
Theorem frames_keep_count :
  forall (count : nat) (songData : option SongData)
         (inputs : nat -> HandPosition.t * list nat) (n : nat)
         (store : list Particle) (g : Rng),
    (length store <= count)%nat -> RngOk g ->
    exists (store' : list Particle) (g' : Rng),
      frames count songData inputs n store g = Done store' g'
      /\ length store' = length store /\ RngOk g'.
Proof.
  intros count songData inputs n store g Hlen Hg.
  induction n as [| n (s1 & g1 & E1 & L1 & Hg1)].
  - exists store, g. split; [reflexivity | split; [reflexivity | exact Hg]].
  - destruct (useFrame_total count true songData (inputs n).1 (inputs n).2 s1 g1)
      as (s2 & g2 & E2 & Hg2 & L2); [lia | exact Hg1 |].
    exists s2, g2. cbn [frames]. unfold bind. rewrite E1, E2.
    split; [reflexivity | split; [congruence | exact Hg2]].
Qed.

Lemma frames_keep_count_witness :
  exists (store' : list Particle) (g' : Rng),
    frames 2
           (Some (mkSongData "" "" "" 90 "C" "major"
                    (mkVisualParams 0.5 1 1 ["#ffffff"%string] "star")))
           (fun k => (HandPosition.mk 0.1 (INR k * 0.1) true, [200; 100; 50]%nat))
           3
           [P.mk 0 1 2 3 4 5 6 0 0 0; P.mk 1 (-3) 4 0 0 0 0 1 0 (-1)]
           (mkRng (fun _ => 1 / 2) 0)
    = Done store' g'
    /\ length store'
       = length [P.mk 0 1 2 3 4 5 6 0 0 0; P.mk 1 (-3) 4 0 0 0 0 1 0 (-1)]
    /\ RngOk g'.
Proof.
  apply (frames_keep_count 2
           (Some (mkSongData "" "" "" 90 "C" "major"
                    (mkVisualParams 0.5 1 1 ["#ffffff"%string] "star")))
           (fun k => (HandPosition.mk 0.1 (INR k * 0.1) true, [200; 100; 50]%nat))
           3
           [P.mk 0 1 2 3 4 5 6 0 0 0; P.mk 1 (-3) 4 0 0 0 0 1 0 (-1)]
           (mkRng (fun _ => 1 / 2) 0)).
  - simpl. lia.
  - intros n. simpl. lra.
Defined.

(** ** The shapes of the interaction *)

(** X3. A particle at distance 25 or more from the pointer is left
    alone by the interaction: same particle, no draw. *)
Theorem interaction_out_of_reach :
  forall (shape : string) (handX handY : R) (particle : Particle) (g : Rng),
    25 <= pointerDistance handX handY particle ->
    handInteraction shape handX handY particle g = Done particle g.
Proof.
  intros shape handX handY particle g H.
  destruct particle as [t x y z bx by' bz vx vy vz].
  unfold pointerDistance in H. simpl in H.
  unfold handInteraction, bind. rewrite sqrt_ok by apply squares_nonneg.
  cbv zeta. rewrite (Rltb_false _ 25) by exact H. reflexivity.
Qed.

Lemma interaction_out_of_reach_witness :
  handInteraction "cat" 0 0 (P.mk 0 30 0 0 0 0 0 1 1 1) (mkRng (fun _ => 0) 0)
  = Done (P.mk 0 30 0 0 0 0 0 1 1 1) (mkRng (fun _ => 0) 0).
Proof.
  apply interaction_out_of_reach.
  unfold pointerDistance. simpl.
  replace ((30 - 0) * (30 - 0) + (0 - 0) * (0 - 0) + (0 - 0) * (0 - 0))
    with (30 * 30) by lra.
  rewrite sqrt_square by lra. lra.
Defined.

(** X4. Touching the cat: with [shape = 'cat'] and the particle closer
    than 8 to the pointer, the velocity is pulled toward the pointer by
    [d * 0.05 * power] on each axis, and [vx] alone receives the purr
    jitter [(u - 0.5) * 0.5 * power] of one draw [u]. *)
Theorem cat_touch :
  forall (handX handY : R) (particle : Particle) (g : Rng),
    pointerDistance handX handY particle < 8 ->
    let power := falloff (pointerDistance handX handY particle) in
    handInteraction "cat" handX handY particle g
    = Done (P.mk (P.t particle)
                 (P.x particle) (P.y particle) (P.z particle)
                 (P.baseX particle) (P.baseY particle) (P.baseZ particle)
                 (P.vx particle - (P.x particle - handX) * 0.05 * power
                  + (draw g 0 - 0.5) * 0.5 * power)
                 (P.vy particle - (P.y particle - handY) * 0.05 * power)
                 (P.vz particle - (P.z particle - 0) * 0.05 * power))
           (advance 1 g).
Proof.
  intros handX handY particle g H power.
  destruct particle as [t x y z bx by' bz vx vy vz].
  unfold power, falloff, pointerDistance in *. simpl in *.
  unfold handInteraction, bind. rewrite sqrt_ok by apply squares_nonneg.
  cbv zeta.
  rewrite (Rltb_true _ 25) by lra. rewrite divide_ok by lra.
  rewrite (Rltb_true _ 8) by exact H.
  change (String.eqb "cat" "cat") with true. cbn [andb].
  reflexivity.
Qed.

Lemma cat_touch_witness :
  handInteraction "cat" 0 0 (P.mk 0 1.8 2.4 0 0 0 0 1 1 1)
                  (mkRng (fun _ => 3 / 4) 0)
  = Done (P.mk 0 1.8 2.4 0 0 0 0 1.027104 0.907072 1)
         (mkRng (fun _ => 3 / 4) 1).
Proof.
  assert (D : pointerDistance 0 0 (P.mk 0 1.8 2.4 0 0 0 0 1 1 1) = 3).
  { unfold pointerDistance. simpl.
    replace ((1.8 - 0) * (1.8 - 0) + (2.4 - 0) * (2.4 - 0) + (0 - 0) * (0 - 0))
      with (3 * 3) by lra.
    apply sqrt_square. lra. }
  rewrite (cat_touch 0 0 (P.mk 0 1.8 2.4 0 0 0 0 1 1 1)
                     (mkRng (fun _ => 3 / 4) 0)).
  - rewrite D. unfold falloff, draw, advance. simpl. f_equal. f_equal; lra.
  - rewrite D. lra.
Defined.

(** X5. The cat is only special within reach of a touch: with
    [shape = 'cat'] and [8 <= dist < 25] the particle gets the default
    vortex and suction, exactly what a sphere particle at the same
    place gets, and no draw is made. *)
Theorem cat_beyond_touch :
  forall (handX handY : R) (particle : Particle) (g : Rng),
    8 <= pointerDistance handX handY particle < 25 ->
    handInteraction "cat" handX handY particle g
    = Done (swirled handX handY particle) g
    /\ handInteraction "cat" handX handY particle g
       = handInteraction "sphere" handX handY particle g.
Proof.
  intros handX handY particle g [H8 H25].
  destruct particle as [t x y z bx by' bz vx vy vz].
  unfold swirled, falloff, pointerDistance in *. simpl in *.
  unfold handInteraction, bind. rewrite sqrt_ok by apply squares_nonneg.
  cbv zeta.
  rewrite (Rltb_true _ 25) by lra. rewrite divide_ok by lra.
  rewrite (Rltb_false _ 8) by exact H8.
  split; reflexivity.
Qed.

Lemma cat_beyond_touch_witness :
  handInteraction "cat" 0 0 (P.mk 0 6 8 0 0 0 0 0 0 0) (mkRng (fun _ => 0) 0)
  = handInteraction "sphere" 0 0 (P.mk 0 6 8 0 0 0 0 0 0 0) (mkRng (fun _ => 0) 0).
Proof.
  apply (cat_beyond_touch 0 0 (P.mk 0 6 8 0 0 0 0 0 0 0) (mkRng (fun _ => 0) 0)).
  unfold pointerDistance. simpl.
  replace ((6 - 0) * (6 - 0) + (8 - 0) * (8 - 0) + (0 - 0) * (0 - 0))
    with (10 * 10) by lra.
  rewrite sqrt_square by lra. lra.
Defined.

(** X6. The flower is pushed away from the pointer in the plane of the
    screen only: within reach, [vx] and [vy] grow by [d * 0.1 * power]
    and [vz] is untouched; no draw is made. *)
Theorem flower_push :
  forall (handX handY : R) (particle : Particle) (g : Rng),
    pointerDistance handX handY particle < 25 ->
    let power := falloff (pointerDistance handX handY particle) in
    handInteraction "flower" handX handY particle g
    = Done (P.mk (P.t particle)
                 (P.x particle) (P.y particle) (P.z particle)
                 (P.baseX particle) (P.baseY particle) (P.baseZ particle)
                 (P.vx particle + (P.x particle - handX) * 0.1 * power)
                 (P.vy particle + (P.y particle - handY) * 0.1 * power)
                 (P.vz particle))
           g.
Proof.
  intros handX handY particle g H power.
  destruct particle as [t x y z bx by' bz vx vy vz].
  unfold power, falloff, pointerDistance in *. simpl in *.
  unfold handInteraction, bind. rewrite sqrt_ok by apply squares_nonneg.
  cbv zeta.
  rewrite (Rltb_true _ 25) by lra. rewrite divide_ok by lra.
  change (String.eqb "flower" "cat") with false.
  change (String.eqb "flower" "flower") with true.
  cbn [andb]. reflexivity.
Qed.

Lemma flower_push_witness :
  handInteraction "flower" 0 0 (P.mk 0 3 4 0 0 0 0 0 0 7) (mkRng (fun _ => 0) 0)
  = Done (P.mk 0 3 4 0 0 0 0 0.192 0.256 7) (mkRng (fun _ => 0) 0).
Proof.
  assert (D : pointerDistance 0 0 (P.mk 0 3 4 0 0 0 0 0 0 7) = 5).
  { unfold pointerDistance. simpl.
    replace ((3 - 0) * (3 - 0) + (4 - 0) * (4 - 0) + (0 - 0) * (0 - 0))
      with (5 * 5) by lra.
    apply sqrt_square. lra. }
  rewrite (flower_push 0 0 (P.mk 0 3 4 0 0 0 0 0 0 7) (mkRng (fun _ => 0) 0)).
  - rewrite D. unfold falloff. simpl. f_equal. f_equal; lra.
  - rewrite D. lra.
Defined.

(** ** The silhouettes *)

(** X7. The sphere targets lie exactly on the sphere of radius 10. *)
Theorem sphere_radius :
  forall (i count : nat) (shape : string) (g : Rng),
    (i < count)%nat ->
    shape <> "cat"%string -> shape <> "flower"%string ->
    shape <> "fish"%string -> shape <> "star"%string ->
    exists v : THREE.Vector3,
      getTargetPosition i count shape g = Done v g /\ THREE.length v = 10.
Proof.
  intros i count shape g Hi N1 N2 N3 N4.
  exists (THREE.setFromSphericalCoords 10 (phiOf i count) (thetaOf i count)).
  split.
  - apply sphere_target_at; [exact Hi | unfold randomShape; tauto].
  - unfold THREE.length. rewrite spherical_lengthSq.
    apply sqrt_square. lra.
Qed.

Lemma sphere_radius_witness :
  exists v : THREE.Vector3,
    getTargetPosition 5 9 "sphere" (mkRng (fun _ => 0) 0)
    = Done v (mkRng (fun _ => 0) 0)
    /\ THREE.length v = 10.
Proof.
  apply (sphere_radius 5 9 "sphere" (mkRng (fun _ => 0) 0));
    [lia | | | |]; intros E; discriminate E.
Defined.

(** Runs the draws of a branch once the prelude is done. *)
Ltac run_draws :=
  unfold bind, Math.random, ret; cbn [draws cursor]; cbv beta iota zeta.

Lemma draw_0 (g : Rng) : draws g (cursor g) = draw g 0.
Proof. reflexivity. Qed.

Lemma draw_1 (g : Rng) : draws g (S (cursor g)) = draw g 1.
Proof. reflexivity. Qed.

Lemma draw_2 (g : Rng) : draws g (S (S (cursor g))) = draw g 2.
Proof. reflexivity. Qed.

(** X8. The flower is a thick ring: every flower target lies at a
    distance between 2 and 10 from the z axis, so no particle is sent
    to the centre, and within 3 of the plane [z = 0]; two draws are
    consumed. *)
Theorem flower_ring :
  forall (i count : nat) (g : Rng),
    (i < count)%nat -> RngOk g ->
    exists v : THREE.Vector3,
      getTargetPosition i count "flower" g = Done v (advance 2 g)
      /\ 2 * 2 <= THREE.x v * THREE.x v + THREE.y v * THREE.y v < 10 * 10
      /\ -3 <= THREE.z v < 3.
Proof.
  intros i count g Hi Hg. eexists. split.
  - run_prelude Hi.
    change (String.eqb "flower" "cat") with false.
    change (String.eqb "flower" "flower") with true.
    run_draws. reflexivity.
  - cbn [THREE.x THREE.y THREE.z]. rewrite draw_0, draw_1.
    pose proof (draw_range g 0 Hg) as U1. pose proof (draw_range g 1 Hg) as U2.
    set (theta := sqrt (INR count * PI) * acos (-1 + 2 * INR i / INR count)).
    set (flowerR := 8 * Rabs (cos (6 * 0.5 * theta))).
    assert (F : 0 <= flowerR <= 8).
    { unfold flowerR. pose proof (COS_bound (6 * 0.5 * theta)) as [C1 C2].
      pose proof (Rabs_pos (cos (6 * 0.5 * theta))).
      pose proof (Rabs_le (cos (6 * 0.5 * theta)) 1 (conj C1 C2)). lra. }
    set (r := draw g 0 * flowerR + 2).
    assert (Hr : 2 <= r < 10) by (unfold r; nra).
    pose proof (sin2_cos2 theta) as T. unfold Rsqr in T.
    pose proof (SIN_bound r) as S.
    replace (r * cos theta * (r * cos theta) + r * sin theta * (r * sin theta))
      with (r * r * (sin theta * sin theta + cos theta * cos theta)) by ring.
    rewrite T. split; [nra | lra].
Qed.

Lemma flower_ring_witness :
  exists v : THREE.Vector3,
    getTargetPosition 1 4 "flower" (mkRng (fun _ => 1 / 2) 0)
    = Done v (advance 2 (mkRng (fun _ => 1 / 2) 0))
    /\ 2 * 2 <= THREE.x v * THREE.x v + THREE.y v * THREE.y v < 10 * 10
    /\ -3 <= THREE.z v < 3.
Proof.
  apply (flower_ring 1 4 (mkRng (fun _ => 1 / 2) 0)).
  - lia.
  - intros n. simpl. lra.
Defined.

(** X9. The parts of the cat.  By the ratio [i / count]: below 0.35
    the target lies on the sphere of radius 3 about [(0, 3.5, 0)] (the
    head); from 0.35 and below 0.85 on the sphere of radius 4.5 about
    [(0, -2.5, 0)] (the body); both without any draw.  From 0.85 and
    below 0.92 it is drawn in the box [[-2,-1) x [6,8) x [0,1)] (left
    ear), and from 0.92 on in [[2,3) x [6,8) x [0,1)] (right ear), with
    three draws. *)
Theorem cat_parts :
  forall (i count : nat) (g : Rng),
    (i < count)%nat -> RngOk g ->
    let ratio := INR i / INR count in
    exists (v : THREE.Vector3) (g' : Rng),
      getTargetPosition i count "cat" g = Done v g'
      /\ (ratio < 0.35 ->
          g' = g
          /\ THREE.x v * THREE.x v + (THREE.y v - 3.5) * (THREE.y v - 3.5)
             + THREE.z v * THREE.z v = 3 * 3)
      /\ (0.35 <= ratio < 0.85 ->
          g' = g
          /\ THREE.x v * THREE.x v + (THREE.y v + 2.5) * (THREE.y v + 2.5)
             + THREE.z v * THREE.z v = 4.5 * 4.5)
      /\ (0.85 <= ratio < 0.92 ->
          g' = advance 3 g
          /\ -2 <= THREE.x v < -1 /\ 6 <= THREE.y v < 8 /\ 0 <= THREE.z v < 1)
      /\ (0.92 <= ratio ->
          g' = advance 3 g
          /\ 2 <= THREE.x v < 3 /\ 6 <= THREE.y v < 8 /\ 0 <= THREE.z v < 1).
Proof.
  intros i count g Hi Hg ratio.
  pose proof (draw_range g 0 Hg) as U1. pose proof (draw_range g 1 Hg) as U2.
  pose proof (draw_range g 2 Hg) as U3.
  run_prelude Hi. change (String.eqb "cat" "cat") with true. cbv iota.
  fold ratio.
  destruct (Rlt_dec ratio 0.35) as [A | A].
  { rewrite (Rltb_true _ _ A). do 2 eexists. split; [reflexivity |].
    repeat split; try lra.
    pose proof (spherical_lengthSq 3
      (acos (-1 + 2 * INR i / INR count) * 2)
      (sqrt (INR count * PI) * acos (-1 + 2 * INR i / INR count))) as N.
    unfold THREE.lengthSq in N. cbn [THREE.x THREE.y THREE.z] in *. lra. }
  rewrite (Rltb_false ratio 0.35) by lra.
  destruct (Rlt_dec ratio 0.85) as [B | B].
  { rewrite (Rltb_true _ _ B). do 2 eexists. split; [reflexivity |].
    repeat split; try lra.
    pose proof (spherical_lengthSq 4.5
      (acos (-1 + 2 * INR i / INR count))
      (sqrt (INR count * PI) * acos (-1 + 2 * INR i / INR count))) as N.
    unfold THREE.lengthSq in N. cbn [THREE.x THREE.y THREE.z] in *. lra. }
  rewrite (Rltb_false ratio 0.85) by lra.
  destruct (Rlt_dec ratio 0.92) as [C | C].
  { rewrite (Rltb_true _ _ C). run_draws. do 2 eexists.
    split; [reflexivity |]. cbn [THREE.x THREE.y THREE.z].
    rewrite draw_0, draw_1, draw_2. repeat split; lra. }
  rewrite (Rltb_false ratio 0.92) by lra. run_draws. do 2 eexists.
  split; [reflexivity |]. cbn [THREE.x THREE.y THREE.z].
  rewrite draw_0, draw_1, draw_2. repeat split; lra.
Qed.

Lemma cat_parts_witness :
  exists (v : THREE.Vector3) (g' : Rng),
    getTargetPosition 9 10 "cat" (mkRng (fun _ => 1 / 2) 0) = Done v g'
    /\ (0.85 <= INR 9 / INR 10 < 0.92 ->
        g' = advance 3 (mkRng (fun _ => 1 / 2) 0)
        /\ -2 <= THREE.x v < -1 /\ 6 <= THREE.y v < 8 /\ 0 <= THREE.z v < 1).
Proof.
  destruct (cat_parts 9 10 (mkRng (fun _ => 1 / 2) 0))
    as (v & g' & E & _ & _ & Ear & _).
  - lia.
  - intros n. simpl. lra.
  - exists v, g'. split; [exact E | exact Ear].
Defined.

Lemma length_below (v : THREE.Vector3) (b : R) :
  0 < b -> THREE.lengthSq v < b * b -> THREE.length v < b.
Proof.
  intros Hb H. unfold THREE.length. rewrite <- (sqrt_square b) by lra.
  apply sqrt_lt_1; [unfold THREE.lengthSq; apply squares_nonneg | nra | exact H].
Qed.

(** X10. The star: one draw per target; a particle whose index is not
    a multiple of 20 stays within radius 12 of the origin, and the
    spikes (every 20th index) within radius 18. *)
Theorem star_radius :
  forall (i count : nat) (g : Rng),
    (i < count)%nat -> RngOk g ->
    exists v : THREE.Vector3,
      getTargetPosition i count "star" g = Done v (advance 1 g)
      /\ THREE.length v < (if Nat.eqb (i mod 20) 0 then 18 else 12).
Proof.
  intros i count g Hi Hg.
  pose proof (draw_range g 0 Hg) as U.
  run_prelude Hi.
  change (String.eqb "star" "cat") with false.
  change (String.eqb "star" "flower") with false.
  change (String.eqb "star" "fish") with false.
  change (String.eqb "star" "star") with true.
  run_draws. rewrite draw_0. change (mkRng (draws g) (S (cursor g))) with (advance 1 g).
  pose proof (wp_pow_unit (draw g 0) 0.3 (advance 1 g)
                (fun v g' => 0 <= v < 1 /\ g' = advance 1 g)) as W.
  apply wp_Done in W as (pw & g' & E & Hpw & ->);
    [| exact U | lra | intros v Hv; split; [exact Hv | reflexivity]].
  rewrite E.
  set (phi := acos (-1 + 2 * INR i / INR count)).
  set (theta := sqrt (INR count * PI) * phi).
  pose proof (spherical_lengthSq (pw * 12) phi theta) as N.
  destruct (Nat.eqb (i mod 20) 0).
  - eexists. split; [reflexivity |]. apply length_below; [lra |].
    unfold THREE.lengthSq, THREE.multiplyScalar, THREE.setFromSphericalCoords in *.
    cbn [THREE.x THREE.y THREE.z] in *. nra.
  - eexists. split; [reflexivity |]. apply length_below; [lra |].
    rewrite N. nra.
Qed.

Lemma star_radius_witness :
  exists v : THREE.Vector3,
    getTargetPosition 3 40 "star" (mkRng (fun _ => 1 / 2) 0)
    = Done v (advance 1 (mkRng (fun _ => 1 / 2) 0))
    /\ THREE.length v < 12.
Proof.
  apply (star_radius 3 40 (mkRng (fun _ => 1 / 2) 0)).
  - lia.
  - intros n. simpl. lra.
Defined.

(** X11. Where the fish puts its points.  On the body ([|fishL| < 7])
    the target keeps [x = fishL] and lies inside the ellipse of
    half-axes 5 and 4 in the [(y, z)] plane.  The tail is displaced by
    2 toward negative [x] at both ends: at the rear ([fishL <= -7]) it
    falls in [-9.5 <= x <= -9], at the front ([fishL >= 7]) in
    [5 <= x < 5.5], inside the span of the body; there [|y| <= 4] and
    [|z| <= 1]. *)
Theorem fish_extent :
  forall (i count : nat) (g : Rng),
    (i < count)%nat -> RngOk g ->
    exists v : THREE.Vector3,
      getTargetPosition i count "fish" g = Done v (advance 2 g)
      /\ (Rabs (fishL i count) < 7 ->
          THREE.x v = fishL i count
          /\ (THREE.y v / 5) * (THREE.y v / 5)
             + (THREE.z v / 4) * (THREE.z v / 4) <= 1)
      /\ (fishL i count <= -7 ->
          -9.5 <= THREE.x v <= -9
          /\ -4 <= THREE.y v <= 4 /\ -1 <= THREE.z v <= 1)
      /\ (7 <= fishL i count ->
          5 <= THREE.x v < 5.5
          /\ -4 <= THREE.y v <= 4 /\ -1 <= THREE.z v <= 1).
Proof.
  intros i count g Hi Hg.
  pose proof (draw_range g 0 Hg) as U1. pose proof (draw_range g 1 Hg) as U2.
  pose proof (ratio_bounds i count Hi) as Hr.
  assert (L : -7.5 <= fishL i count < 7.5) by (unfold fishL; lra).
  destruct (Rlt_dec (Rabs (fishL i count)) 7) as [B | T].
  - exists (fishBody (fishL i count) (draw g 0) (draw g 1)).
    split; [apply fish_target_body; assumption |].
    apply Rabs_def2 in B.
    split; [| split; intros; lra].
    intros _. split; [reflexivity |].
    unfold fishBody. cbn [THREE.x THREE.y THREE.z].
    set (c := cos (fishL i count * 0.2)).
    set (ca := cos (draw g 0 * PI * 2)). set (sa := sin (draw g 0 * PI * 2)).
    set (rad := draw g 1) in *.
    pose proof (COS_bound (fishL i count * 0.2)) as C. fold c in C.
    pose proof (sin2_cos2 (draw g 0 * PI * 2)) as S. unfold Rsqr in S.
    fold ca sa in S.
    replace (ca * (c * 5) * rad / 5 * (ca * (c * 5) * rad / 5)
             + sa * (c * 4) * rad / 4 * (sa * (c * 4) * rad / 4))
      with ((c * rad) * (c * rad) * (sa * sa + ca * ca)) by field.
    rewrite S. assert (K : -1 <= c * rad <= 1) by nra. nra.
  - exists (fishTail (fishL i count) (draw g 0) (draw g 1)).
    split; [apply fish_target_tail; [assumption | lra] |].
    unfold fishTail. cbn [THREE.x THREE.y THREE.z].
    split; [intros B; lra |].
    split; intros H; repeat split; lra.
Qed.

Lemma fish_extent_witness :
  exists v : THREE.Vector3,
    getTargetPosition 29 30 "fish" (mkRng (fun _ => 1 / 2) 0)
    = Done v (advance 2 (mkRng (fun _ => 1 / 2) 0))
    /\ (7 <= fishL 29 30 ->
        5 <= THREE.x v < 5.5
        /\ -4 <= THREE.y v <= 4 /\ -1 <= THREE.z v <= 1).
Proof.
  destruct (fish_extent 29 30 (mkRng (fun _ => 1 / 2) 0))
    as (v & E & _ & _ & Front).
  - lia.
  - intros n. simpl. lra.
  - exists v. split; [exact E | exact Front].
Defined.

(** ** The store and the palette *)

Lemma particleFromDraws_shift (g : Rng) (k : nat) :
  particleFromDraws (advance 7 g) k = particleFromDraws g (S k).
Proof.
  unfold particleFromDraws. rewrite !draw_advance.
  repeat (f_equal; try lia).
Qed.

(** X12. The initial store is a function of the random source alone:
    it always succeeds, consumes exactly [7 * count] draws, and its
    particle [k] is built from the draws [7k .. 7k + 6], at rest. *)
Theorem store_from_draws :
  forall (count : nat) (g : Rng),
    particles count g
    = Done (map (particleFromDraws g) (seq 0 count)) (advance (7 * count) g).
Proof.
  unfold particles. induction count as [| n IH]; intros g.
  - simpl. unfold ret, advance. destruct g; reflexivity.
  - cbn [newParticles]. run_draws.
    change (mkRng (draws g) (S (S (S (S (S (S (S (cursor g)))))))))
      with (advance 7 g).
    rewrite IH. rewrite advance_advance.
    replace (7 * n + 7)%nat with (7 * S n)%nat by lia.
    f_equal. cbn [seq map]. f_equal.
    rewrite <- seq_shift, map_map. apply map_ext.
    intros k. apply particleFromDraws_shift.
Qed.

(** X13. An empty palette makes the palette effect throw: with at
    least one particle, the first colour read is [undefined] and its
    [toArray] raises a TypeError. *)
Theorem empty_palette_throws :
  forall (newColor : string -> THREE.Color) (data : SongData) (count : nat)
         (colorArray : list R) (g : Rng),
    colorPalette (visualParams data) = [] -> (1 <= count)%nat ->
    updateColors newColor (Some data) true count colorArray g
    = Abort TypeError.
Proof.
  intros newColor data count colorArray g Hp Hc.
  unfold updateColors. rewrite Hp. change (negb true) with false. cbv iota.
  destruct count as [| n]; [lia |].
  cbn [colorLoop map]. unfold bind, Math.random, index.
  destruct (_ <? 0)%Z; reflexivity.
Qed.

Lemma empty_palette_throws_witness :
  updateColors (fun _ => THREE.mkColor 1 1 1)
               (Some (mkSongData "" "" "" 90 "C" "major"
                        (mkVisualParams 0 1 1 [] "sphere")))
               true 2 [0; 0; 0; 0; 0; 0] (mkRng (fun _ => 0) 0)
  = Abort TypeError.
Proof.
  apply empty_palette_throws; [reflexivity | lia].
Defined.

(** ** Convergence of the idle sphere *)

Lemma blocks_contract (m : nat) (B : R) (s : R * R * R) :
  within B s -> within (0.11 ^ m * B) (Nat.iter (100 * m) axisStep s).
Proof.
  intros W. induction m as [| m IH].
  - replace (100 * 0)%nat with 0%nat by lia. cbn [Nat.iter nat_rect pow].
    destruct s as [[e v] d]. unfold within in *. lra.
  - replace (100 * S m)%nat with (100 + 100 * m)%nat by lia.
    rewrite Nat.iter_add. apply block_contracts in IH.
    destruct (Nat.iter 100 axisStep _) as [[e v] d].
    unfold within in *. cbn [pow]. lra.
Qed.

(** X14. The idle sphere converges geometrically.  For any particle
    count, with [shape = 'sphere'], [chaos = 0], [speed = 0] and the
    pointer not detected, after [100 * m] frames from the initial
    store every particle has, on each axis, its position and its base
    position within [35 * 0.11^m] of its sphere target and its velocity
    within [35 * 0.11^m] of zero. *)
Theorem idle_sphere_converges :
  forall (count m : nat) (data : SongData)
         (inputs : nat -> HandPosition.t * list nat) (g : Rng),
    RngOk g ->
    shape (visualParams data) = "sphere"%string ->
    chaos (visualParams data) = 0 ->
    speed (visualParams data) = 0 ->
    (forall k : nat, HandPosition.isDetected (inputs k).1 = false) ->
    exists (store : list Particle) (g' : Rng),
      (do initialStore <- particles count ;;
       frames count (Some data) inputs (100 * m) initialStore) g
      = Done store g'
      /\ length store = count
      /\ forall (j : nat) (p : Particle),
           store !! j = Some p ->
           within (0.11 ^ m * 35) (axisX (sphereTarget j count) p)
           /\ within (0.11 ^ m * 35) (axisY (sphereTarget j count) p)
           /\ within (0.11 ^ m * 35) (axisZ (sphereTarget j count) p).
Proof.
  intros count m data inputs g Hg Hs Hc Hv Hd.
  destruct (wp_Done _ _ _ (newParticles_initial count g Hg))
    as (store0 & g0 & E0 & L0 & I0 & _).
  exists (imap (fun j p => Nat.iter (100 * m) (calmStep (sphereTarget j count)) p)
               store0), g0.
  split; [| split].
  - unfold bind, particles. rewrite E0.
    apply frames_calm; try assumption. lia.
  - rewrite length_imap. exact L0.
  - intros j p E. rewrite list_lookup_imap in E.
    apply fmap_Some in E as (p0 & E0j & ->).
    pose proof (Forall_lookup_1 _ _ _ _ I0 E0j)
      as ((Px & Py & Pz) & (Bx & By & Bz) & (Vx & Vy & Vz)).
    set (T := sphereTarget j count).
    assert (HT : THREE.lengthSq T = 100).
    { unfold T, sphereTarget. rewrite spherical_lengthSq. lra. }
    assert (Tx : -10 <= THREE.x T <= 10) by (unfold THREE.lengthSq in HT; nra).
    assert (Ty : -10 <= THREE.y T <= 10) by (unfold THREE.lengthSq in HT; nra).
    assert (Tz : -10 <= THREE.z T <= 10) by (unfold THREE.lengthSq in HT; nra).
    destruct (calm_iter_axes T (100 * m) p0) as (EX & EY & EZ).
    rewrite EX, EY, EZ.
    split; [| split]; apply blocks_contract; unfold within, axisX, axisY, axisZ;
      rewrite ?Vx, ?Vy, ?Vz, Rabs_R0;
      (repeat split; [apply Rabs_le | | apply Rabs_le]; lra).
Qed.

Lemma idle_sphere_converges_witness :
  exists (store : list Particle) (g' : Rng),
    (do initialStore <- particles 3 ;;
     frames 3
            (Some (mkSongData "" "" "" 90 "C" "major"
                     (mkVisualParams 0 0 1 ["#ffffff"%string] "sphere")))
            (fun _ => (HandPosition.mk 0 0 false, []))
            (100 * 2) initialStore) (mkRng (fun _ => 1 / 2) 0)
    = Done store g'
    /\ length store = 3%nat.
Proof.
  destruct (idle_sphere_converges 3 2
              (mkSongData "" "" "" 90 "C" "major"
                 (mkVisualParams 0 0 1 ["#ffffff"%string] "sphere"))
              (fun _ => (HandPosition.mk 0 0 false, []))
              (mkRng (fun _ => 1 / 2) 0))
    as (store & g' & E & L & _).
  - intros n. simpl. lra.
  - reflexivity.
  - reflexivity.
  - reflexivity.
  - intros k. reflexivity.
  - exists store, g'. split; [exact E | exact L].
Defined.

(** ** The face classifier *)

Lemma getScore_le (shapes : list Blendshape.t) (name : string) (b : R) :
  0 <= b -> Forall (fun s => Blendshape.score s <= b) shapes ->
  getScore shapes name <= b.
Proof.
  intros Hb H. unfold getScore.
  induction H as [| s rest Hs _ IH]; [exact Hb |].
  cbn [find]. destruct (String.eqb (Blendshape.categoryName s) name);
    [exact Hs | exact IH].
Qed.

(** X15. A face without a marked expression is Neutral: when no
    blendshape scores above 0.2 (in particular when none is reported),
    [classifyEmotion] answers 'Neutral'. *)
Theorem quiet_face_is_neutral :
  forall shapes : list Blendshape.t,
    Forall (fun s => Blendshape.score s <= 0.2) shapes ->
    classifyEmotion shapes = "Neutral"%string.
Proof.
  intros shapes H.
  assert (G : forall name, getScore shapes name <= 0.2)
    by (intros name; apply getScore_le; [lra | exact H]).
  unfold classifyEmotion.
  pose proof (G "mouthSmileLeft"%string). pose proof (G "mouthSmileRight"%string).
  pose proof (G "mouthFrownLeft"%string). pose proof (G "mouthFrownRight"%string).
  pose proof (G "browDownLeft"%string). pose proof (G "browDownRight"%string).
  pose proof (G "browInnerUp"%string). pose proof (G "browOuterUpLeft"%string).
  pose proof (G "browOuterUpRight"%string). pose proof (G "jawOpen"%string).
  cbv zeta.
  rewrite (Rltb_false 0.5) by lra. rewrite (Rltb_false 0.5) by lra.
  rewrite (Rltb_false 0.4) by lra. rewrite (Rltb_false 0.4) by lra.
  rewrite (Rltb_false 0.3) by lra. rewrite (Rltb_false 0.3) by lra.
  reflexivity.
Qed.

Lemma quiet_face_is_neutral_witness :
  classifyEmotion [Blendshape.mk "jawOpen" 0.1; Blendshape.mk "browInnerUp" 0.2]
  = "Neutral"%string.
Proof.
  apply quiet_face_is_neutral.
  repeat constructor; simpl; lra.
Defined.

(** X16. A smile wins over everything else: the answer is 'Happy'
    exactly when the two mouth-smile scores average above 0.5, whatever
    the brows, the frown and the jaw do. *)
Theorem smile_wins :
  forall shapes : list Blendshape.t,
    classifyEmotion shapes = "Happy"%string
    <-> 0.5 < (getScore shapes "mouthSmileLeft"
               + getScore shapes "mouthSmileRight") / 2.
Proof.
  intros shapes. unfold classifyEmotion. cbv zeta.
  set (smile := (getScore shapes "mouthSmileLeft"
                 + getScore shapes "mouthSmileRight") / 2).
  destruct (Rlt_dec 0.5 smile) as [S | S].
  - rewrite (Rltb_true _ _ S). split; [intros _; exact S | reflexivity].
  - rewrite (Rltb_false 0.5 smile) by lra. split; [| intros C; contradiction].
    repeat match goal with
           | |- context [if ?c then _ else _] => destruct c
           end; intros E; discriminate E.
Qed.

Lemma getScore_filter (shapes : list Blendshape.t) (name : string) :
  In name readCategories ->
  getScore (List.filter isRead shapes) name = getScore shapes name.
Proof.
  intros Hn. unfold getScore. induction shapes as [| s rest IH]; [reflexivity |].
  cbn [List.filter find].
  destruct (String.eqb_spec (Blendshape.categoryName s) name) as [E | E].
  - assert (R : isRead s = true).
    { unfold isRead. apply existsb_exists. exists name.
      split; [exact Hn | rewrite E; apply String.eqb_refl]. }
    rewrite R. cbn [find]. rewrite E, String.eqb_refl. reflexivity.
  - destruct (isRead s); [| exact IH].
    cbn [find]. apply String.eqb_neq in E. rewrite E. exact IH.
Qed.

(** X17. Only the ten blendshapes the classifier names matter:
    dropping every other category from the detector's list leaves the
    answer unchanged. *)
Theorem other_blendshapes_ignored :
  forall shapes : list Blendshape.t,
    classifyEmotion (List.filter isRead shapes) = classifyEmotion shapes.
Proof.
  intros shapes. unfold classifyEmotion.
  rewrite !getScore_filter by (unfold readCategories; simpl; tauto).
  reflexivity.
Qed.

(** ** The hand pointer *)

(** X18. A fingertip inside the video frame gives a pointer inside the
    scene's square: for an index tip at [(u, v)] in [0,1]^2 the update
    is detected at [(1 - 2u, 1 - 2v)], which lies in [-1,1]^2; the
    horizontal axis is mirrored and the vertical one turned upward. *)
Theorem fingertip_in_frame :
  forall (hand : list Landmark.t) (others : list (list Landmark.t))
         (indexTip : Landmark.t) (g : Rng),
    hand !! 8%nat = Some indexTip ->
    0 <= Landmark.x indexTip <= 1 -> 0 <= Landmark.y indexTip <= 1 ->
    exists position : HandPosition.t,
      handUpdate (Some (hand :: others)) g = Done position g
      /\ HandPosition.isDetected position = true
      /\ HandPosition.x position = 1 - 2 * Landmark.x indexTip
      /\ HandPosition.y position = 1 - 2 * Landmark.y indexTip
      /\ -1 <= HandPosition.x position <= 1
      /\ -1 <= HandPosition.y position <= 1.
Proof.
  intros hand others indexTip g E Hx Hy.
  unfold handUpdate. rewrite E. eexists. split; [reflexivity |].
  cbn [HandPosition.x HandPosition.y HandPosition.isDetected].
  repeat split; lra.
Qed.

Lemma fingertip_in_frame_witness :
  exists position : HandPosition.t,
    handUpdate (Some [repeat (Landmark.mk 0.25 1 0) 21])
               (mkRng (fun _ => 0) 0)
    = Done position (mkRng (fun _ => 0) 0)
    /\ HandPosition.isDetected position = true
    /\ HandPosition.x position = 1 - 2 * 0.25
    /\ HandPosition.y position = 1 - 2 * 1
    /\ -1 <= HandPosition.x position <= 1
    /\ -1 <= HandPosition.y position <= 1.
Proof.
  apply (fingertip_in_frame (repeat (Landmark.mk 0.25 1 0) 21) []
                            (Landmark.mk 0.25 1 0) (mkRng (fun _ => 0) 0)).
  - reflexivity.
  - simpl. lra.
  - simpl. lra.
Defined.

(** X19. What the hand update does at the edges: with no landmarks, or
    an empty list of hands, the pointer is reported undetected at the
    origin; a first hand with fewer than nine landmarks makes the read
    of the index tip throw. *)
Theorem hand_update_edges :
  forall (hand : list Landmark.t) (others : list (list Landmark.t)) (g : Rng),
    handUpdate None g = Done (HandPosition.mk 0 0 false) g
    /\ handUpdate (Some []) g = Done (HandPosition.mk 0 0 false) g
    /\ ((length hand <= 8)%nat ->
        handUpdate (Some (hand :: others)) g = Abort TypeError).
Proof.
  intros hand others g. split; [reflexivity | split; [reflexivity |]].
  intros H. unfold handUpdate.
  rewrite (lookup_ge_None_2 hand 8) by lia. reflexivity.
Qed.

Lemma hand_update_edges_witness :
  handUpdate (Some [[Landmark.mk 0 0 0; Landmark.mk 1 1 0]])
             (mkRng (fun _ => 0) 0)
  = Abort TypeError.
Proof.
  apply (hand_update_edges [Landmark.mk 0 0 0; Landmark.mk 1 1 0] []
                           (mkRng (fun _ => 0) 0)).
  simpl. lia.
Defined.

Lemma updateParticle_idle_pointer (count : nat) (visual : VisualParams)
      (bass handX handY handX' handY' : R) (i : nat) (p : Particle) (g : Rng) :
  updateParticle count visual bass handX handY false i p g
  = updateParticle count visual bass handX' handY' false i p g.
Proof.
  unfold updateParticle, bind.
  destruct (getTargetPosition i count (shape visual) g) as [target g1 |];
    [| reflexivity].
  destruct p as [t x y z bx by' bz vx vy vz]. reflexivity.
Qed.

(** X20. An undetected pointer has no place: when [isDetected] is
    false the frame step does not depend on the pointer's
    coordinates. *)
Theorem undetected_pointer_is_nowhere :
  forall (count : nat) (meshCurrent : bool) (songData : option SongData)
         (x y x' y' : R) (freqData : list nat) (store : list Particle)
         (g : Rng),
    useFrame count meshCurrent songData (HandPosition.mk x y false)
             freqData store g
    = useFrame count meshCurrent songData (HandPosition.mk x' y' false)
               freqData store g.
Proof.
  intros count meshCurrent songData x y x' y' freqData store g.
  unfold useFrame. destruct songData as [data |]; [| reflexivity].
  destruct (negb meshCurrent); [reflexivity |].
  unfold bind. rewrite !divide_ok by lra.
  cbn [HandPosition.x HandPosition.y HandPosition.isDetected].
  apply forEach_ext. intros i p g0. apply updateParticle_idle_pointer.
Qed.

(** ** The audio engine *)

(** X21. Every chord has five tones, starts on the base frequency and,
    for a positive base, climbs strictly, staying below 2.25 times the
    base, whatever the scale string is. *)
Theorem chord_climbs :
  forall (baseFreq : R) (scale : string),
    0 < baseFreq ->
    exists f1 f2 f3 f4 : R,
      AudioEngine.getChord baseFreq scale = [baseFreq; f1; f2; f3; f4]
      /\ baseFreq < f1 /\ f1 < f2 /\ f2 < f3 /\ f3 < f4
      /\ f4 < 2.25 * baseFreq.
Proof.
  intros baseFreq scale Hb. unfold AudioEngine.getChord. cbv zeta.
  destruct (AudioEngine.includes scale "minor");
    [| destruct (AudioEngine.includes scale "diminished");
       [| destruct (AudioEngine.includes scale "pentatonic")]];
    do 4 eexists;
    (split; [try rewrite Rmult_1_r; reflexivity | repeat split; nra]).
Qed.

Lemma chord_climbs_witness :
  exists f1 f2 f3 f4 : R,
    AudioEngine.getChord 440 "minor" = [440; f1; f2; f3; f4]
    /\ 440 < f1 /\ f1 < f2 /\ f2 < f3 /\ f3 < f4 /\ f4 < 2.25 * 440.
Proof.
  apply (chord_climbs 440 "minor"). lra.
Defined.

Lemma replace_B_is_not_B (s : string) :
  AudioEngine.replace "B"%char "#" s <> "B"%string.
Proof.
  destruct s as [| a rest]; [discriminate |].
  cbn [AudioEngine.replace].
  destruct (Ascii.eqb_spec a "B"%char) as [E | E].
  - discriminate.
  - intros C. injection C as C _. contradiction.
Qed.

Lemma indexOf_range (array : list string) (s : string) :
  (-1 <= AudioEngine.indexOf array s < Z.of_nat (length array))%Z.
Proof.
  induction array as [| a rest IH]; [simpl; lia |].
  cbn [AudioEngine.indexOf length].
  destruct (String.eqb a s); [lia |].
  destruct (Z.eqb_spec (AudioEngine.indexOf rest s) (-1)); lia.
Qed.

Lemma indexOf_found (array : list string) (s : string) (k : nat) :
  AudioEngine.indexOf array s = Z.of_nat k -> array !! k = Some s.
Proof.
  revert k. induction array as [| a rest IH]; intros k E.
  - simpl in E. lia.
  - cbn [AudioEngine.indexOf] in E.
    destruct (String.eqb_spec a s) as [Ea | Ea].
    + assert (k = 0%nat) by lia. subst. reflexivity.
    + destruct (Z.eqb_spec (AudioEngine.indexOf rest s) (-1)) as [N | N]; [lia |].
      destruct k as [| k]; [pose proof (indexOf_range rest s); lia |].
      simpl. apply IH. lia.
Qed.

(** X22. [noteToFreq] never fails and never lands on B.  For every
    key string, and whatever [toUpperCase] does to it, the result is
    [261.63 * 2^(k/12)] for some [k] from 0 to 10: the twelfth name,
    B, is rewritten to '#' before the lookup and so is never found.
    The frequency therefore lies in [261.63, 261.63 * 2^(10/12)]. *)
Theorem noteToFreq_never_B :
  forall (toUpperCase : string -> string) (note : string) (g : Rng),
    exists k : nat,
      (k <= 10)%nat
      /\ AudioEngine.noteToFreq toUpperCase note g
         = Done (261.63 * Rpower 2 (INR k / 12)) g
      /\ 261.63 <= 261.63 * Rpower 2 (INR k / 12)
         <= 261.63 * Rpower 2 (10 / 12).
Proof.
  intros toUpperCase note g. unfold AudioEngine.noteToFreq.
  set (name := AudioEngine.replace "B"%char "#"
                 (AudioEngine.replace "M"%char "" (toUpperCase note))).
  pose proof (indexOf_range AudioEngine.notes name) as Hr.
  change (Z.of_nat (length AudioEngine.notes)) with 12%Z in Hr.
  assert (H11 : AudioEngine.indexOf AudioEngine.notes name <> 11%Z).
  { intros C. apply (indexOf_found _ _ 11) in C.
    simpl in C. injection C as C. symmetry in C.
    exact (replace_B_is_not_B _ C). }
  set (index := AudioEngine.indexOf AudioEngine.notes name) in *.
  cbv zeta.
  exists (Z.to_nat (if (index =? -1)%Z then 0%Z else index)).
  assert (Hc : (0 <= (if (index =? -1)%Z then 0 else index) <= 10)%Z)
    by (destruct (Z.eqb_spec index (-1)); lia).
  set (cleanIndex := if (index =? -1)%Z then 0%Z else index) in *.
  assert (Ek : INR (Z.to_nat cleanIndex) = IZR cleanIndex)
    by (rewrite INR_IZR_INZ, Z2Nat.id by lia; reflexivity).
  split; [lia |]. split.
  - unfold bind. rewrite divide_ok by lra.
    unfold Math.pow.
    destruct (Rlt_dec 2 0) as [N | _]; [lra |].
    destruct (Req_dec_T 2 0) as [N | _]; [lra |].
    unfold ret. rewrite Ek. reflexivity.
  - rewrite Ek.
    assert (B0 : 0 <= IZR cleanIndex) by (apply IZR_le; lia).
    assert (B10 : IZR cleanIndex <= 10) by (apply IZR_le; lia).
    assert (L : 1 <= Rpower 2 (IZR cleanIndex / 12)).
    { rewrite <- (Rpower_O 2) by lra.
      apply Rle_Rpower; lra. }
    assert (U : Rpower 2 (IZR cleanIndex / 12) <= Rpower 2 (10 / 12))
      by (apply Rle_Rpower; lra).
    lra.
Qed.

Lemma fold_left_add_bound (l : list nat) (acc b : nat) :
  Forall (fun x => (x <= b)%nat) l ->
  (fold_left Nat.add l acc <= acc + b * length l)%nat.
Proof.
  intros H. revert acc. induction H as [| x rest Hx _ IH]; intros acc.
  - simpl. lia.
  - cbn [fold_left length]. specialize (IH (acc + x)%nat). lia.
Qed.

Lemma sumSlice_bound (freqData : list nat) (from to : nat) :
  Forall (fun x => (x <= 255)%nat) freqData ->
  0 <= sumSlice freqData from to
    <= 255 * INR (Nat.min (to - from) (length freqData - from)).
Proof.
  intros H. unfold sumSlice. split; [apply pos_INR |].
  set (slice := take (to - from) (drop from freqData)).
  assert (Hs : Forall (fun x => (x <= 255)%nat) slice)
    by (apply Forall_take, Forall_drop; exact H).
  pose proof (fold_left_add_bound slice 0 255 Hs) as B.
  assert (L : length slice = Nat.min (to - from) (length freqData - from))
    by (unfold slice; rewrite length_take, length_drop; reflexivity).
  rewrite L in B.
  replace 255 with (INR 255) by (rewrite INR_IZR_INZ; reflexivity).
  rewrite <- mult_INR. apply le_INR. lia.
Qed.

(** X23. The energy bands the frame step reads.  The bytes of the
    analyser are at most 255, so [bass] lies in [0, 1]; and since
    [init] gives the analyser 128 bins while [treble] averages the
    bins 100 to 149 over 50, only 28 bins contribute and [treble]
    never exceeds 0.56.  Before the engine is initialised both bands
    are 0. *)
Theorem energy_bands :
  forall analyser : option (list nat),
    (forall bytes : list nat,
        analyser = Some bytes ->
        length bytes = AudioEngine.frequencyBinCount
        /\ Forall (fun x => (x <= 255)%nat) bytes) ->
    0 <= bassOf (AudioEngine.getFrequencyData analyser) <= 1
    /\ 0 <= trebleOf (AudioEngine.getFrequencyData analyser) <= 0.56
    /\ (analyser = None ->
        bassOf (AudioEngine.getFrequencyData analyser) = 0
        /\ trebleOf (AudioEngine.getFrequencyData analyser) = 0).
Proof.
  intros analyser H.
  assert (N : bassOf [] = 0 /\ trebleOf [] = 0).
  { unfold bassOf, trebleOf, sumSlice. simpl. lra. }
  destruct analyser as [bytes |]; cbn [AudioEngine.getFrequencyData].
  - destruct (H bytes eq_refl) as [L F].
    change AudioEngine.frequencyBinCount with 128%nat in L.
    pose proof (sumSlice_bound bytes 0 10 F) as B.
    pose proof (sumSlice_bound bytes 100 150 F) as T.
    rewrite L in B, T.
    change (Nat.min (10 - 0) (128 - 0)) with 10%nat in B.
    change (Nat.min (150 - 100) (128 - 100)) with 28%nat in T.
    replace (INR 10) with 10 in B by (rewrite INR_IZR_INZ; reflexivity).
    replace (INR 28) with 28 in T by (rewrite INR_IZR_INZ; reflexivity).
    unfold bassOf, trebleOf.
    split; [lra | split; [lra | intros C; discriminate C]].
  - destruct N as [N1 N2]. rewrite N1, N2.
    split; [lra | split; [lra | intros _; split; reflexivity]].
Qed.

Lemma energy_bands_witness :
  0 <= bassOf (AudioEngine.getFrequencyData (Some (repeat 255%nat 128))) <= 1
  /\ 0 <= trebleOf (AudioEngine.getFrequencyData (Some (repeat 255%nat 128)))
       <= 0.56.
Proof.
  destruct (energy_bands (Some (repeat 255%nat 128))) as (B & T & _).
  - intros bytes E. assert (bytes = repeat 255%nat 128) by congruence.
    subst bytes. split.
    + reflexivity.
    + apply Forall_forall. intros x Hx.
      apply list_elem_of_In, repeat_spec in Hx. lia.
  - split; [exact B | exact T].
Defined.

(** X24. The scale of a particle.  For band energies in [0, 1] and a
    non-negative size, the instance scale lies between [0.2 * size]
    and [1.2 * size]; in silence it is exactly [0.2 * size]. *)
Theorem instance_scale_range :
  forall size bass treble t : R,
    0 <= size -> 0 <= bass <= 1 -> 0 <= treble <= 1 ->
    0.2 * size <= finalScale size bass treble t <= 1.2 * size
    /\ finalScale size 0 0 t = 0.2 * size.
Proof.
  intros size bass treble t Hs Hb Ht. unfold finalScale. cbv zeta.
  pose proof (SIN_bound (t * 10)) as S.
  set (sFactor := (sin (t * 10) + 1) * 0.5).
  assert (F : 0 <= sFactor <= 1) by (unfold sFactor; lra).
  assert (A : 0 <= treble * sFactor <= 1) by nra.
  split; [| lra]. split; nra.
Qed.

Lemma instance_scale_range_witness :
  0.2 * 2 <= finalScale 2 1 1 0 <= 1.2 * 2.
Proof.
  apply (instance_scale_range 2 1 1 0); lra.
Defined.

(** X25. The spacing of the arpeggiator.  For every tempo other than
    0 the notes are [30 / tempo] apart below 80 beats per minute (half
    a beat) and [60 / tempo] apart from 80 on (a full beat); over the
    documented tempo range of 60 to 140 the spacing is always between
    0.375 s and 0.75 s.  A tempo of 0 gives no finite spacing. *)
Theorem note_spacing :
  forall (tempo : R) (g : Rng),
    (tempo <> 0 ->
     AudioEngine.noteTime tempo g
     = Done (if Rltb tempo 80 then 30 / tempo else 60 / tempo) g)
    /\ (60 <= tempo <= 140 ->
        exists spacing : R,
          AudioEngine.noteTime tempo g = Done spacing g
          /\ spacing = (if Rltb tempo 80 then 30 / tempo else 60 / tempo)
          /\ 0.375 < spacing <= 0.75)
    /\ AudioEngine.noteTime 0 g = Abort NonFinite.
Proof.
  intros tempo g.
  assert (F : tempo <> 0 ->
              AudioEngine.noteTime tempo g
              = Done (if Rltb tempo 80 then 30 / tempo else 60 / tempo) g).
  { intros H0. unfold AudioEngine.noteTime, bind.
    rewrite divide_ok by exact H0.
    destruct (Rltb tempo 80); [| reflexivity].
    rewrite divide_ok by lra. f_equal. unfold Rdiv. lra. }
  split; [exact F | split].
  - intros [H60 H140]. rewrite F by lra.
    assert (P : 0 < / tempo) by (apply Rinv_0_lt_compat; lra).
    assert (I : tempo * / tempo = 1) by (apply Rinv_r; lra).
    eexists. split; [reflexivity |]. split; [reflexivity |].
    destruct (Rlt_dec tempo 80) as [S | S].
    + rewrite (Rltb_true _ _ S). unfold Rdiv. nra.
    + rewrite (Rltb_false tempo 80) by lra. unfold Rdiv. nra.
  - unfold AudioEngine.noteTime, bind, divide.
    destruct (Req_dec_T 0 0) as [_ | N]; [reflexivity | contradiction].
Qed.

Lemma note_spacing_witness :
  (exists spacing : R,
     AudioEngine.noteTime 60 (mkRng (fun _ => 0) 0)
     = Done spacing (mkRng (fun _ => 0) 0)
     /\ spacing = (if Rltb 60 80 then 30 / 60 else 60 / 60)
     /\ 0.375 < spacing <= 0.75)
  /\ AudioEngine.noteTime 200 (mkRng (fun _ => 0) 0)
     = Done (if Rltb 200 80 then 30 / 200 else 60 / 200) (mkRng (fun _ => 0) 0)
  /\ AudioEngine.noteTime (-60) (mkRng (fun _ => 0) 0)
     = Done (if Rltb (-60) 80 then 30 / -60 else 60 / -60) (mkRng (fun _ => 0) 0).
Proof.
  split; [| split].
  - apply (note_spacing 60 (mkRng (fun _ => 0) 0)). lra.
  - apply (note_spacing 200 (mkRng (fun _ => 0) 0)). lra.
  - apply (note_spacing (-60) (mkRng (fun _ => 0) 0)). lra.
Defined.

(** ** The piano notes *)

(** X26. A piano note is three partials at [f], [2f] and [3f], with
    peaks [v], [0.4 v] and [0.1 v]; the upper two are detuned by less
    than 5 cents, with one draw each; every partial stops 1.11 s after
    it starts, so the [duration] argument has no effect. *)
Theorem piano_note_partials :
  forall (freq time duration volume : R) (g : Rng),
    RngOk g ->
    exists d1 d2 : R,
      playPianoNote true freq time duration volume g
      = Done [Partial.mk (freq * 1) 0 (volume * 1) time (time + 0.01 + 1.0 + 0.1);
              Partial.mk (freq * 2) d1 (volume * 0.4) time (time + 0.01 + 1.0 + 0.1);
              Partial.mk (freq * 3) d2 (volume * 0.1) time (time + 0.01 + 1.0 + 0.1)]
             (advance 2 g)
      /\ 0 <= d1 < 5 /\ 0 <= d2 < 5
      /\ time + 0.01 + 1.0 + 0.1 - time = 1.11
      /\ forall duration' : R,
           playPianoNote true freq time duration' volume g
           = playPianoNote true freq time duration volume g.
Proof.
  intros freq time duration volume g Hg.
  exists (draw g 0 * 5), (draw g 1 * 5).
  pose proof (draw_range g 0 Hg) as U1. pose proof (draw_range g 1 Hg) as U2.
  split; [reflexivity |].
  repeat split; try lra.
Qed.

Lemma piano_note_partials_witness :
  exists d1 d2 : R,
    playPianoNote true 440 2 7 0.4 (mkRng (fun _ => 1 / 2) 0)
    = Done [Partial.mk (440 * 1) 0 (0.4 * 1) 2 (2 + 0.01 + 1.0 + 0.1);
            Partial.mk (440 * 2) d1 (0.4 * 0.4) 2 (2 + 0.01 + 1.0 + 0.1);
            Partial.mk (440 * 3) d2 (0.4 * 0.1) 2 (2 + 0.01 + 1.0 + 0.1)]
           (advance 2 (mkRng (fun _ => 1 / 2) 0))
    /\ 0 <= d1 < 5 /\ 0 <= d2 < 5.
Proof.
  destruct (piano_note_partials 440 2 7 0.4 (mkRng (fun _ => 1 / 2) 0))
    as (d1 & d2 & E & B1 & B2 & _).
  - intros n. simpl. lra.
  - exists d1, d2. split; [exact E | split; [exact B1 | exact B2]].
Defined.

Lemma playPianoNote_runs (freq time duration volume : R) (g : Rng) :
  RngOk g ->
  wp (playPianoNote true freq time duration volume) g
     (fun note g' =>
        (length note = 3%nat
         /\ Forall (fun partial => Partial.start partial = time) note)
        /\ RngOk g').
Proof.
  intros Hg. unfold wp.
  change (playPianoNote true freq time duration volume g)
    with (Done [Partial.mk (freq * 1) 0 (volume * 1) time (time + 0.01 + 1.0 + 0.1);
                Partial.mk (freq * 2) (draw g 0 * 5) (volume * 0.4) time
                           (time + 0.01 + 1.0 + 0.1);
                Partial.mk (freq * 3) (draw g 1 * 5) (volume * 0.1) time
                           (time + 0.01 + 1.0 + 0.1)]
               (advance 2 g)).
  split; [split; [reflexivity | repeat constructor] | apply RngOk_advance; exact Hg].
Qed.

Lemma scheduleNote_runs (chord : list R) (noteTime nextNoteTime : R)
      (noteIndex : nat) (g : Rng) :
  RngOk g -> (1 <= length chord)%nat ->
  wp (scheduleNote chord noteTime nextNoteTime noteIndex) g
     (fun played g' =>
        (length played.1 = 3%nat
         /\ Forall (fun partial => Partial.start partial = nextNoteTime) played.1)
        /\ RngOk g').
Proof.
  intros Hg Hc. unfold scheduleNote.
  apply wp_bind, wp_random; [exact Hg |]. intros r1 U1 g1 Hg1. cbv zeta.
  destruct (lookup_lt_is_Some_2 chord (noteIndex mod length chord)) as [tone E].
  { apply Nat.mod_upper_bound. lia. }
  rewrite E. apply wp_bind.
  eapply wp_mono; [| apply (playPianoNote_runs _ _ _ _ g1 Hg1)].
  intros note g2 [L Hg2]. cbv beta.
  apply wp_bind, wp_random; [exact Hg2 |]. intros r2 U2 g3 Hg3.
  destruct (Rltb 0.3 r2).
  - apply wp_ret. split; [exact L | exact Hg3].
  - apply wp_bind, wp_random; [exact Hg3 |]. intros r3 U3 g4 Hg4.
    apply wp_ret. split; [exact L | exact Hg4].
Qed.

(** X27. The scheduler catches up and stops.  With a chord of at least
    one tone and a positive note spacing, a pass that is given enough
    turns to reach the look-ahead horizon [currentTime + 0.1] ends: it
    plays notes of three partials each; note [k] of the pass starts, in
    all its partials, at [nextNoteTime + k * noteTime], one spacing
    after the note before it and before the horizon, so that no note
    starts from the horizon on; [nextNoteTime] is left advanced by one
    spacing per note, at or beyond the horizon. *)
Theorem scheduler_catches_up :
  forall (fuel : nat) (chord : list R) (noteTime currentTime nextNoteTime : R)
         (noteIndex : nat) (g : Rng),
    RngOk g -> (1 <= length chord)%nat -> 0 < noteTime ->
    currentTime + 0.1 <= nextNoteTime + INR fuel * noteTime ->
    exists (notes : list (list Partial.t)) (next : R) (index : nat) (g' : Rng),
      scheduler fuel chord noteTime currentTime nextNoteTime noteIndex g
      = Done (Some (notes, next, index)) g'
      /\ next = nextNoteTime + INR (length notes) * noteTime
      /\ currentTime + 0.1 <= next
      /\ (notes <> [] -> next - noteTime < currentTime + 0.1)
      /\ Forall (fun note => length note = 3%nat) notes
      /\ (forall (k : nat) (note : list Partial.t),
            notes !! k = Some note ->
            Forall (fun partial =>
                      Partial.start partial = nextNoteTime + INR k * noteTime)
                   note
            /\ nextNoteTime + INR k * noteTime < currentTime + 0.1)
      /\ RngOk g'.
Proof.
  intros fuel chord noteTime currentTime nextNoteTime noteIndex g Hg Hc Hn.
  revert nextNoteTime noteIndex g Hg.
  induction fuel as [| fuel IH]; intros nextNoteTime noteIndex g Hg Hf.
  - simpl in Hf. cbn [scheduler].
    rewrite (Rltb_false nextNoteTime) by lra.
    exists [], nextNoteTime, noteIndex, g.
    split; [reflexivity |]. simpl.
    split; [lra |]. split; [lra |]. split; [intros C; contradiction |].
    split; [constructor |]. split; [| exact Hg].
    intros k note E. rewrite lookup_nil in E. discriminate E.
  - cbn [scheduler].
    destruct (Rlt_dec nextNoteTime (currentTime + 0.1)) as [T | T].
    + rewrite (Rltb_true _ _ T). unfold bind.
      destruct (wp_Done _ _ _ (scheduleNote_runs chord noteTime nextNoteTime
                                                 noteIndex g Hg Hc))
        as (played & g1 & E1 & (L1 & S1) & Hg1).
      rewrite E1. rewrite S_INR in Hf.
      destruct (IH (nextNoteTime + noteTime) played.2 g1 Hg1)
        as (notes & next & index & g2 & E2 & N & H & M & F & St & Hg2); [lra |].
      rewrite E2. exists (played.1 :: notes), next, index, g2.
      split; [reflexivity |].
      split; [cbn [length]; rewrite S_INR; lra |].
      split; [exact H |].
      split; [| split; [constructor; assumption | split; [| exact Hg2]]].
      * intros _. destruct notes as [| n notes'].
        -- simpl in N. lra.
        -- apply M. discriminate.
      * intros [| k] note E.
        -- simpl in E. apply (f_equal (fun o => default [] o)) in E. simpl in E.
           subst note. split.
           ++ eapply Forall_impl; [exact S1 |]. intros partial Ep.
              simpl in Ep. rewrite Ep. simpl. lra.
           ++ simpl. lra.
        -- simpl in E. destruct (St k note E) as [Fk Bk]. rewrite S_INR. split.
           ++ eapply Forall_impl; [exact Fk |]. intros partial Ep.
              simpl in Ep. rewrite Ep. lra.
           ++ lra.
    + rewrite (Rltb_false nextNoteTime) by lra.
      exists [], nextNoteTime, noteIndex, g.
      split; [reflexivity |]. simpl.
      split; [lra |]. split; [lra |]. split; [intros C; contradiction |].
      split; [constructor |]. split; [| exact Hg].
      intros k note E. rewrite lookup_nil in E. discriminate E.
Qed.

Lemma scheduler_catches_up_witness :
  exists (notes : list (list Partial.t)) (next : R) (index : nat) (g' : Rng),
    scheduler 3 [440; 550] 0.5 10 9 0 (mkRng (fun _ => 1 / 2) 0)
    = Done (Some (notes, next, index)) g'
    /\ next = 9 + INR (length notes) * 0.5
    /\ 10 + 0.1 <= next
    /\ (forall (k : nat) (note : list Partial.t),
          notes !! k = Some note ->
          Forall (fun partial => Partial.start partial = 9 + INR k * 0.5) note
          /\ 9 + INR k * 0.5 < 10 + 0.1).
Proof.
  destruct (scheduler_catches_up 3 [440; 550] 0.5 10 9 0 (mkRng (fun _ => 1 / 2) 0))
    as (notes & next & index & g' & E & N & H & _ & _ & St & _).
  - intros n. simpl. lra.
  - simpl. lia.
  - lra.
  - simpl. lra.
  - exists notes, next, index, g'.
    split; [exact E | split; [exact N | split; [exact H | exact St]]].
Defined.

(** X28. A spacing that is not positive freezes the scheduler: with a
    chord of at least one tone, [noteTime <= 0] (a negative tempo) and
    a note due before the horizon, the loop has not ended after any
    number of turns. *)
Theorem scheduler_freezes :
  forall (fuel : nat) (chord : list R) (noteTime currentTime nextNoteTime : R)
         (noteIndex : nat) (g : Rng),
    RngOk g -> (1 <= length chord)%nat -> noteTime <= 0 ->
    nextNoteTime < currentTime + 0.1 ->
    exists g' : Rng,
      scheduler fuel chord noteTime currentTime nextNoteTime noteIndex g
      = Done None g'.
Proof.
  intros fuel chord noteTime currentTime nextNoteTime noteIndex g Hg Hc Hn.
  revert nextNoteTime noteIndex g Hg.
  induction fuel as [| fuel IH]; intros nextNoteTime noteIndex g Hg Hd;
    cbn [scheduler]; rewrite (Rltb_true _ _ Hd).
  - exists g. reflexivity.
  - unfold bind.
    destruct (wp_Done _ _ _ (scheduleNote_runs chord noteTime nextNoteTime
                                               noteIndex g Hg Hc))
      as (played & g1 & E1 & _ & Hg1).
    rewrite E1.
    destruct (IH (nextNoteTime + noteTime) played.2 g1 Hg1) as (g2 & E2); [lra |].
    rewrite E2. exists g2. reflexivity.
Qed.

Lemma scheduler_freezes_witness :
  exists g' : Rng,
    scheduler 50 [440] (-1) 10 9 0 (mkRng (fun _ => 1 / 2) 0) = Done None g'.
Proof.
  apply (scheduler_freezes 50 [440] (-1) 10 9 0 (mkRng (fun _ => 1 / 2) 0)).
  - intros n. simpl. lra.
  - simpl. lia.
  - lra.
  - lra.
Defined.

(** ** The hand velocity of the fluid variant *)

(** X29. The drag velocity remembers exactly one frame: whatever came
    before, the velocity of a frame is five times the displacement of
    the pointer since the previous frame when the hand was detected in
    both, and zero otherwise (on the frame the hand appears, or while
    it is away). *)
Theorem drag_remembers_one_frame :
  forall (active1 active2 : bool) (x1 y1 x2 y2 : R) (before : option (R * R)),
    (handVelocity active2 x2 y2 (handVelocity active1 x1 y1 before).2).1
    = (if active1 && active2 then ((x2 - x1) * 5, (y2 - y1) * 5) else (0, 0)).
Proof.
  intros active1 active2 x1 y1 x2 y2 before. unfold handVelocity.
  destruct active1, active2; reflexivity.
Qed.
